(** * investordefend-server: the turn simulation and incident-mitigation engine

  A shallow embedding of the turn simulation of the game server
  ([src/games/games.service.ts], [src/games/simulations.service.ts],
  [src/organisations/organisations.service.ts]) and the properties the
  specification states about it.

  Conventions of the embedding:
  - a JavaScript [number] is a binary64 float, Rocq's primitive [float];
    an optional field is an [option]; [undefined] read as a number is NaN;
  - a Mongoose collection is a finite map from [ObjectId] to documents; a
    service call loads a document, changes the copy and saves it back;
  - an [async] method is a computation in the monad [M]: it threads the
    [world] (database, the settings cached by the simulations service, the
    random source) and completes normally, by a thrown exception, or not
    at all;
  - the catalogs cached by the simulations service hold objects that the
    code reaches through several arrays: an element of a working array is a
    reference (an index into the cached catalog), never a copy. *)

From stdpp Require Import gmap strings list fin_maps.
From Stdlib Require Import Floats.

Set Warnings "-inexact-float".

(** ** JavaScript numbers *)

Module JS.

#[local] Open Scope Z_scope.

(** [ToBoolean] of a number: [+0], [-0] and NaN are falsy. *)
Definition ToBoolean (x : float) : bool :=
  negb (PrimFloat.eqb x 0) && negb (is_nan x).

(** [x || y] where [x] may be [undefined]. *)
Definition or (x : option float) (y : float) : float :=
  match x with
  | Some v => if ToBoolean v then v else y
  | None => y
  end.

(** [!x] where [x] may be [undefined]. *)
Definition not (x : option float) : bool :=
  match x with
  | Some v => negb (ToBoolean v)
  | None => true
  end.

(** [ToNumber]: [undefined] becomes NaN. *)
Definition ToNumber (x : option float) : float := default nan x.

(** [x !== y] on numbers. *)
Definition strict_neq (x y : float) : bool := negb (PrimFloat.eqb x y).

(** The binary64 value nearest to an integer. *)
Definition of_Z (z : Z) : float :=
  SF2Prim (binary_normalize prec emax z 0 false).

(** [array.length] as a number. *)
Definition length {A} (l : list A) : float := of_Z (Z.of_nat (List.length l)).

(** The floor of a finite number, as an integer. *)
Definition floorZ (x : float) : option Z :=
  match Prim2SF x with
  | S754_zero _ => Some 0
  | S754_finite s m e =>
      let v := cond_Zopp s (Zpos m) in
      Some (if 0 <=? e then v * 2 ^ e else v / 2 ^ (- e))
  | _ => None
  end.

(** [Math.floor]: a number with a fractional part goes down to the next
    integer; integers, zeros, infinities and NaN are returned as they are. *)
Definition Math_floor (x : float) : float :=
  match Prim2SF x with
  | S754_finite s m e =>
      if e <? 0 then of_Z (cond_Zopp s (Zpos m) / 2 ^ (- e)) else x
  | _ => x
  end.

(** The array index a number denotes when used as a property key:
    a non-negative integer ([-0] is the key "0"). *)
Definition index (x : float) : option nat :=
  match Prim2SF x with
  | S754_zero _ => Some 0%nat
  | S754_finite false m e =>
      if 0 <=? e then Some (Z.to_nat (Zpos m * 2 ^ e))
      else if Zpos m mod 2 ^ (- e) =? 0 then Some (Z.to_nat (Zpos m / 2 ^ (- e)))
      else None
  | _ => None
  end.

(** [array[x]]: [None] is [undefined]. *)
Definition get {A} (l : list A) (x : float) : option A :=
  match index x with
  | Some i => l !! i
  | None => None
  end.

(** [ToIntegerOrInfinity] clamped to what [splice] needs for an array of
    length [len]: NaN is 0, the fraction is dropped, and a start beyond
    either end is brought back to it. *)
Definition splice_start (len : nat) (x : float) : nat :=
  let n := Z.of_nat len in
  let clamp t := if t <? 0 then Z.to_nat (Z.max (n + t) 0) else Z.to_nat (Z.min t n) in
  match Prim2SF x with
  | S754_zero _ | S754_nan => 0%nat
  | S754_infinity s => if s then 0%nat else len
  | S754_finite s m e =>
      clamp (cond_Zopp s (if 0 <=? e then Zpos m * 2 ^ e else Zpos m / 2 ^ (- e)))
  end.

(** [array.splice(x, 1)]: the array without the element at the start
    position (unchanged when the start is the length). *)
Definition splice1 {A} (l : list A) (x : float) : list A :=
  delete (splice_start (List.length l) x) l.

(** [Number(x.toFixed(2))]: the integer [n] with [n / 100] nearest to [x]
    (the larger one on a tie, taken on the absolute value), read back as
    the binary64 value nearest to [n / 100]. From 1e21 on [toFixed] prints
    the number itself. *)
Definition toFixed2 (x : float) : float :=
  match Prim2SF x with
  | S754_finite s m e =>
      if PrimFloat.leb 1e21 (abs x) then x
      else
        let n := if 0 <=? e then Zpos m * 2 ^ e * 100
                 else (Zpos m * 200 + 2 ^ (- e)) / (2 * 2 ^ (- e)) in
        match n with
        | Zpos p => SF2Prim (SFdiv prec emax (S754_finite s p 0) (S754_finite false 100 0))
        | _ => if s then neg_zero else zero
        end
  | S754_zero _ => zero
  | _ => x
  end.

(** The number of iterations of [for (let i = 1; i <= n; i++)], or [None]
    when the loop does not end (from 2^53 on [i++] no longer changes [i]). *)
Definition for_count (n : float) : option nat :=
  match floorZ n with
  | Some k => if k <? 2 ^ 53 then Some (Z.to_nat k) else None
  | None => if PrimFloat.ltb 0 n then None else Some 0%nat
  end.

(** [array.sort(cmp)]: [undefined] elements go last and are not compared;
    the others are put in order by the sign of [cmp], equal elements (also
    when [cmp] is NaN) keeping their order. *)
Section Sort.
Context {A : Type} (cmp : A → A → float).

Fixpoint insert_sorted (x : A) (l : list A) : list A :=
  match l with
  | [] => [x]
  | y :: l' => if PrimFloat.ltb (cmp x y) 0 then x :: l else y :: insert_sorted x l'
  end.

Definition sort (l : list (option A)) : list (option A) :=
  (Some <$> foldl (λ acc x, insert_sorted x acc) [] (omap id l))
    ++ filter (λ x, x = None) l.
End Sort.

End JS.

(** ** Data model *)

(** A 12-byte [ObjectId]; [String(a) === String(b)] on identifiers is
  equality of the identifiers. *)
Definition ObjectId := N.
Bind Scope N_scope with ObjectId.

(** [src/_helpers/enums.ts] *)
Inductive GameState := Purchasing | Simulating | DONOTUSE_Results | Ended.
Inductive GameType := SinglePlayer | Cooperative | Competitive.

#[global] Instance GameState_eq_dec : EqDecision GameState.
  Proof. solve_decision. Defined.
#[global] Instance GameType_eq_dec : EqDecision GameType.
  Proof. solve_decision. Defined.

(** [typings]: the threat actors and assets kept as settings. *)
Module ThreatActor.
Record t := mk {
  slug : string;
  probability : option float;
  includeFrom : option float;
  costModifier : option float;
}.
Definition set_probability (p : option float) (a : t) : t :=
  mk (slug a) p (includeFrom a) (costModifier a).
End ThreatActor.

Module Asset.
Record t := mk {
  slug : string;
  location : string;
  probability : option float;
}.
Definition set_probability (p : option float) (a : t) : t :=
  mk (slug a) (location a) p.
End Asset.

(** [src/games/securityArea.model.ts]. [number] is the string that names the
  area; [Number_number] is its reading [Number(number)], the only use the
  simulation makes of it. *)
Module SecurityArea.
Record t := mk {
  id : ObjectId;
  number : string;
  Number_number : float;
  source : string;
}.
End SecurityArea.

(** [src/games/control.model.ts]: a control as implemented by an
  organisation. *)
Module ImplementedControl.
Record t := mk {
  id : ObjectId;
  name : string;
  cost : float;
  effectiveness : float;
  asset : option string;
  source : string;
  securityAreas : list ObjectId;
  turnImplemented : float;
  mitigation : float;
}.
Definition set_mitigation (m : float) (c : t) : t :=
  mk (id c) (name c) (cost c) (effectiveness c) (asset c) (source c)
     (securityAreas c) (turnImplemented c) m.
End ImplementedControl.

(** [src/games/event.model.ts] *)
Module Event.
Record t := mk {
  id : ObjectId;
  game : ObjectId;
  turn : float;
  cost : float;
  asset : string;
  threatActor : string;
  securityAreas : list ObjectId;
}.
End Event.

Module ExperiencedEvent.
Record t := mk {
  event : Event.t;
  mitigated : bool;
  mitigatedBy : option ObjectId;
  mitigatedCost : option float;
}.
End ExperiencedEvent.

(** The organisation model. *)
Module Organisation.
Record t := mk {
  owner : ObjectId;
  name : string;
  balance : float;
  controls : list ImplementedControl.t;
  members : list ObjectId;
  pastBalances : list float;
  events : list ExperiencedEvent.t;
}.
Definition set_balance (b : float) (o : t) : t :=
  mk (owner o) (name o) b (controls o) (members o) (pastBalances o) (events o).
Definition set_controls (c : list ImplementedControl.t) (o : t) : t :=
  mk (owner o) (name o) (balance o) c (members o) (pastBalances o) (events o).
Definition set_pastBalances (p : list float) (o : t) : t :=
  mk (owner o) (name o) (balance o) (controls o) (members o) p (events o).
Definition set_events (e : list ExperiencedEvent.t) (o : t) : t :=
  mk (owner o) (name o) (balance o) (controls o) (members o) (pastBalances o) e.
End Organisation.

(** The game model. *)
Module Game.
Record t := mk {
  owner : ObjectId;
  gameType : GameType;
  currentTurn : float;
  maxTurns : float;
  moneyPerTurn : float;
  state : GameState;
  source : string;
  minNumOfEvents : float;
  maxNumOfEvents : float;
  minCostPerEvent : float;
  maxCostPerEvent : float;
  allowUnavoidableIncidents : bool;
  organisations : list ObjectId;
  readyOrganisations : list ObjectId;
}.
Definition set_readyOrganisations (r : list ObjectId) (g : t) : t :=
  mk (owner g) (gameType g) (currentTurn g) (maxTurns g) (moneyPerTurn g) (state g)
     (source g) (minNumOfEvents g) (maxNumOfEvents g) (minCostPerEvent g)
     (maxCostPerEvent g) (allowUnavoidableIncidents g) (organisations g) r.
Definition set_state (s : GameState) (g : t) : t :=
  mk (owner g) (gameType g) (currentTurn g) (maxTurns g) (moneyPerTurn g) s
     (source g) (minNumOfEvents g) (maxNumOfEvents g) (minCostPerEvent g)
     (maxCostPerEvent g) (allowUnavoidableIncidents g) (organisations g)
     (readyOrganisations g).
Definition set_currentTurn (n : float) (g : t) : t :=
  mk (owner g) (gameType g) n (maxTurns g) (moneyPerTurn g) (state g)
     (source g) (minNumOfEvents g) (maxNumOfEvents g) (minCostPerEvent g)
     (maxCostPerEvent g) (allowUnavoidableIncidents g) (organisations g)
     (readyOrganisations g).
End Game.

(** ** The world and the monad of service calls *)

(** The database collections, the fields of the one [SimulationsService]
  instance, and the process-wide random source ([Math.random()] returns
  [random_source random_calls] and advances). [_assetsWithControls] holds
  references to objects of [_assets]. *)
Record world := World {
  Games : gmap ObjectId Game.t;
  Organisations : gmap ObjectId Organisation.t;
  Events : gmap ObjectId Event.t;
  SecurityAreas : list SecurityArea.t;
  _threatActors : list ThreatActor.t;
  _assets : list Asset.t;
  _assetsWithControls : list nat;
  random_source : nat → float;
  random_calls : nat;
  }.

Definition set_Games (f : gmap ObjectId Game.t → gmap ObjectId Game.t) (w : world) : world :=
  World (f (Games w)) (Organisations w) (Events w) (SecurityAreas w) (_threatActors w)
      (_assets w) (_assetsWithControls w) (random_source w) (random_calls w).
Definition set_Organisations
  (f : gmap ObjectId Organisation.t → gmap ObjectId Organisation.t) (w : world) : world :=
  World (Games w) (f (Organisations w)) (Events w) (SecurityAreas w) (_threatActors w)
      (_assets w) (_assetsWithControls w) (random_source w) (random_calls w).
Definition set_Events (f : gmap ObjectId Event.t → gmap ObjectId Event.t) (w : world) : world :=
  World (Games w) (Organisations w) (f (Events w)) (SecurityAreas w) (_threatActors w)
      (_assets w) (_assetsWithControls w) (random_source w) (random_calls w).
Definition set_threatActors (f : list ThreatActor.t → list ThreatActor.t) (w : world) : world :=
  World (Games w) (Organisations w) (Events w) (SecurityAreas w) (f (_threatActors w))
      (_assets w) (_assetsWithControls w) (random_source w) (random_calls w).
Definition set_assets (f : list Asset.t → list Asset.t) (w : world) : world :=
  World (Games w) (Organisations w) (Events w) (SecurityAreas w) (_threatActors w)
      (f (_assets w)) (_assetsWithControls w) (random_source w) (random_calls w).
Definition set_random_calls (n : nat) (w : world) : world :=
  World (Games w) (Organisations w) (Events w) (SecurityAreas w) (_threatActors w)
      (_assets w) (_assetsWithControls w) (random_source w) n.

(** What the code throws. *)
Inductive exn :=
  | HttpError (code : N) (message : string)  (* throw { code, message } *)
  | Message (message : string)               (* throw '...' *)
  | TypeError.                               (* a property of undefined or null *)

Inductive completion (A : Type) :=
  | Normal (a : A)
  | Throw (e : exn)
  | Hang.
Arguments Normal {A} a.
Arguments Throw {A} e.
Arguments Hang {A}.

Definition M (A : Type) : Type := world → completion A * world.

#[global] Instance M_ret : MRet M := λ A a w, (Normal a, w).
#[global] Instance M_bind : MBind M := λ A B k m w,
  match m w with
  | (Normal a, w') => k a w'
  | (Throw e, w') => (Throw e, w')
  | (Hang, w') => (Hang, w')
  end.

Definition throw {A} (e : exn) : M A := λ w, (Throw e, w).
Definition hang {A} : M A := λ w, (Hang, w).
Definition read {A} (f : world → A) : M A := λ w, (Normal (f w), w).
Definition write (f : world → world) : M unit := λ w, (Normal (), f w).

(** [for (const x of l) body(x)] *)
Fixpoint for_of {A} (l : list A) (body : A → M unit) : M unit :=
  match l with
  | [] => mret ()
  | x :: l' => body x ;; for_of l' body
  end.

(** [Math.random()] *)
Definition Math_random : M float := λ w,
  (Normal (random_source w (random_calls w)), set_random_calls (S (random_calls w)) w).

(** An element of an array that may hold [undefined]: reading a property
  of [undefined] throws. *)
Definition defined {A} (x : option A) : M A :=
  match x with
  | Some a => mret a
  | None => throw TypeError
  end.

(** ** Services *)

(** [src/_helpers/base.service.ts], [Service._getById]: a missing document
  is an error. (Identifiers are well formed by their type, so the
  [isValidId] guards never fire.) *)
Definition _getById {T} (collection : world → gmap ObjectId T) (id : ObjectId) : M T :=
  document ← read (λ w, collection w !! id);
  match document with
  | Some d => mret d
  | None => throw (Message "No document found matching provided ID.")
  end.

(** [src/games/events.service.ts] *)
Module EventsService.

Definition _basicDetails (document : Event.t) : Event.t := document.

(** [Service.get] *)
Definition get (id : ObjectId) : M Event.t :=
  document ← _getById Events id;
  mret (_basicDetails document).

(** [Service.create]: the new document gets an identifier no other event
    has. *)
Definition create (game : ObjectId) (turn cost : float) (threatActor asset : string)
    (securityAreas : list ObjectId) : M Event.t :=
  id ← read (λ w, fresh (dom (Events w)));
  let newDocument := Event.mk id game turn cost asset threatActor securityAreas in
  write (set_Events <[id := newDocument]>);;
  mret (_basicDetails newDocument).

End EventsService.

(** [src/games/securityAreas.service.ts] *)
Module SecurityAreasService.

(** [SecurityArea.find({ source })] *)
Definition _getAllBySource (source : string) : M (list SecurityArea.t) :=
  read (λ w, filter (λ a, SecurityArea.source a = source) (SecurityAreas w)).

(** The [filter] over [_basicDetails] keeps every document. *)
Definition getAllBySource (source : string) : M (list SecurityArea.t) :=
  _getAllBySource source.

End SecurityAreasService.

(** [src/organisations/organisations.service.ts] *)
Module OrganisationsService.

Definition save (id : ObjectId) (organisation : Organisation.t) : M unit :=
  write (set_Organisations <[id := organisation]>).

Definition _basicDetails (document : Organisation.t) : Organisation.t :=
  Organisation.set_pastBalances [] document.

(** What [simulateEvent] records about the mitigation of an event. *)
Record mitigation := Mitigation {
  mitigated : bool;
  mitigatedBy : option ObjectId;
  mitigatedCost : option float;
}.

(** The two inner loops of [simulateEvent] for one control: some security
    area of the control equals some security area of the event, and the
    control's asset is the event's. Both sides of
    [String(controlSecurityAreaId) === String(eventSecurityArea['id'])] are
    read as the identifier of a security area, so the test is equality of
    identifiers. *)
Definition mitigates (control : ImplementedControl.t) (event : Event.t) : bool :=
  existsb (λ controlSecurityAreaId,
    existsb (λ eventSecurityArea,
      bool_decide (ImplementedControl.asset control = Some (Event.asset event))
      && bool_decide (controlSecurityAreaId = eventSecurityArea))
      (Event.securityAreas event))
    (ImplementedControl.securityAreas control).

(** The outer loop of [simulateEvent] with its [break]: the controls as the
    loop leaves them, and the mitigation found. *)
Fixpoint scan (event : Event.t) (controls : list ImplementedControl.t)
    : list ImplementedControl.t * mitigation :=
  match controls with
  | [] => ([], Mitigation false None None)
  | control :: rest =>
      if mitigates control event then
        let mitigatedCost :=
          (Event.cost event - Event.cost event * ImplementedControl.effectiveness control)%float in
        let control' :=
          ImplementedControl.set_mitigation
            (ImplementedControl.mitigation control + (Event.cost event - mitigatedCost))%float
            control in
        (control' :: rest,
         Mitigation true (Some (ImplementedControl.id control)) (Some mitigatedCost))
      else
        let '(rest', found) := scan event rest in
        (control :: rest', found)
  end.

Definition simulateEvent (organisationId eventId : ObjectId) : M Organisation.t :=
  organisation ← _getById Organisations organisationId;
  event ← EventsService.get eventId;
  let '(controls, Mitigation mitigated mitigatedBy mitigatedCost) :=
    scan event (Organisation.controls organisation) in
  let organisation := Organisation.set_controls controls organisation in
  let organisation :=
    Organisation.set_events
      (Organisation.events organisation
         ++ [ExperiencedEvent.mk event mitigated mitigatedBy mitigatedCost])
      organisation in
  let organisation :=
    Organisation.set_balance
      (Organisation.balance organisation - JS.or mitigatedCost (Event.cost event))%float
      organisation in
  save organisationId organisation;;
  mret (_basicDetails organisation).

Definition simulateNewTurn (organisationId : ObjectId) (moneyPerTurn : float)
    : M Organisation.t :=
  organisation ← _getById Organisations organisationId;
  let organisation :=
    Organisation.set_balance (Organisation.balance organisation + moneyPerTurn)%float
      organisation in
  save organisationId organisation;;
  mret (_basicDetails organisation).

Definition saveBalance (organisationId : ObjectId) (currentTurn : float) : M unit :=
  organisation ← _getById Organisations organisationId;
  if JS.ToBoolean
       (JS.ToNumber (JS.get (Organisation.pastBalances organisation) (currentTurn - 1)%float))
  then throw (HttpError 500 "Past balance already set!")
  else
    save organisationId
      (Organisation.set_pastBalances
         (Organisation.pastBalances organisation ++ [Organisation.balance organisation])
         organisation).

End OrganisationsService.

(** [src/games/games.service.ts]: reading game documents, as the games service
    and the simulations service both do. *)
Module GameDocuments.

(** The serialised game keeps every field of the model above but [owner],
    which no caller reads; it is the document here. *)
Definition _basicDetails (document : Game.t) : Game.t := document.

(** [Service.get] *)
Definition get (id : ObjectId) : M Game.t :=
  document ← _getById Games id;
  mret (_basicDetails document).

(** [Game.findById(gameId).populate({ path: 'organisations' })]: the
    document, or [null]; the populated array holds the organisations that
    exist, in the order of the references. *)
Definition findById_populate (gameId : ObjectId)
    : M (option (Game.t * list ObjectId)) :=
  read (λ w,
    game ← Games w !! gameId;
    Some (game, filter (λ id, is_Some (Organisations w !! id)) (Game.organisations game))).

End GameDocuments.


(** [src/games/simulations.service.ts] *)
Module SimulationsService.

(** The references to the elements of [l] that satisfy [p], as
    [Array.prototype.filter] collects them. *)
Fixpoint filter_refs {T} (p : T → bool) (l : list T) (from : nat) : list nat :=
  match l with
  | [] => []
  | x :: l' =>
      if p x then from :: filter_refs p l' (S from) else filter_refs p l' (S from)
  end.

(** The weighted selection that [_generateThreatActor] and [_generateAsset]
    both spell out, over a working array [refs] of references into one of the
    cached catalogs. *)
Section Weighted.
Context {T : Type}.
Context (catalog : world → list T) (set_catalog : (list T → list T) → world → world).
Context (probability : T → option float) (set_probability : option float → T → T).

(** The object behind a reference. *)
Definition object (ref : nat) : M T :=
  found ← read (λ w, catalog w !! ref);
  defined found.

(** [for (const x of xs) sumProbabilities += x.probability || 1 / xs.length;] *)
Fixpoint sum_probabilities (xs_length : float) (refs : list nat) (sumProbabilities : float)
    : M float :=
  match refs with
  | [] => mret sumProbabilities
  | ref :: refs' =>
      x ← object ref;
      sum_probabilities xs_length refs'
        (sumProbabilities + JS.or (probability x) (1 / xs_length))%float
  end.

(** [xs.map((x) => { x.probability = x.probability / sumProbabilities; return x; })]:
    the assignment changes the object in the cached catalog. *)
Definition normalise (sumProbabilities : float) (refs : list nat) : M unit :=
  for_of refs (λ ref,
    x ← object ref;
    write (set_catalog
      <[ref := set_probability
                 (Some (JS.ToNumber (probability x) / sumProbabilities)%float) x]>)).

(** [x.probability || 0.1]: what the selection loop adds to its running sum
    for an object, the weight the object effectively has in the draw. *)
Definition weight (x : T) : float := JS.or (probability x) 0.1.

(** [for (const x of xs) { sum += x.probability || 0.1; if (rand <= sum) return x; }]:
    falling off the end of the loop returns [undefined]. *)
Fixpoint select (rand : float) (refs : list nat) (sum : float) : M (option T) :=
  match refs with
  | [] => mret None
  | ref :: refs' =>
      x ← object ref;
      let sum := (sum + weight x)%float in
      if PrimFloat.leb rand sum then mret (Some x) else select rand refs' sum
  end.

Definition generate (refs : list nat) : M (option T) :=
  rand ← Math_random;
  sumProbabilities ← sum_probabilities (JS.length refs) refs 0;
  (if JS.strict_neq sumProbabilities 1 then normalise sumProbabilities refs else mret ());;
  select rand refs 0.

End Weighted.

Definition _generateThreatActor (gameProgress : float) : M (option ThreatActor.t) :=
  all ← read _threatActors;
  let threatActors :=
    filter_refs
      (λ threatActor,
         JS.not (ThreatActor.includeFrom threatActor)
         || PrimFloat.leb (JS.ToNumber (ThreatActor.includeFrom threatActor)) gameProgress)
      all 0 in
  generate _threatActors set_threatActors
    ThreatActor.probability ThreatActor.set_probability threatActors.

Definition _generateAsset (allowUnavoidableIncidents : bool) : M (option Asset.t) :=
  assets ← read (λ w,
    if allowUnavoidableIncidents then seq 0 (length (_assets w)) else _assetsWithControls w);
  generate _assets set_assets Asset.probability Asset.set_probability assets.

(** The body of the loop of [_generateSecurityAreas], [n] times: a random
    index, the element there pushed (it may be [undefined]) and spliced out. *)
Fixpoint pick_securityAreas (n : nat) (allSecurityAreas : list SecurityArea.t)
    (eventSecurityAreas : list (option SecurityArea.t))
    : M (list (option SecurityArea.t)) :=
  match n with
  | O => mret eventSecurityAreas
  | S n' =>
      r ← Math_random;
      let randIdx := JS.Math_floor (r * (JS.length allSecurityAreas - 1 - 0) + 0)%float in
      pick_securityAreas n' (JS.splice1 allSecurityAreas randIdx)
        (eventSecurityAreas ++ [JS.get allSecurityAreas randIdx])
  end.

Definition _generateSecurityAreas (source : string) : M (list (option SecurityArea.t)) :=
  allSecurityAreas ← SecurityAreasService.getAllBySource source;
  r ← Math_random;
  let numOfSecurityAreas := JS.Math_floor (r * (3 - 1 + 1) + 1)%float in
  match JS.for_count numOfSecurityAreas with
  | None => hang
  | Some n =>
      eventSecurityAreas ← pick_securityAreas n allSecurityAreas [];
      mret (JS.sort
              (λ a b, SecurityArea.Number_number a - SecurityArea.Number_number b)%float
              eventSecurityAreas)
  end.

Definition _generateCost (min max : float) (costModifier : option float) : M float :=
  r ← Math_random;
  mret (JS.toFixed2 (r * (max - min + 1) + min) * default 1 costModifier)%float.

(** [securityAreas.map((securityArea) => securityArea.id)] *)
Fixpoint map_id (securityAreas : list (option SecurityArea.t)) : M (list ObjectId) :=
  match securityAreas with
  | [] => mret []
  | securityArea :: rest =>
      a ← defined securityArea;
      ids ← map_id rest;
      mret (SecurityArea.id a :: ids)
  end.

(** The body of the loop of [_simulateEventsForTurn], [n] times. *)
Fixpoint generate_events (n : nat) (gameId : ObjectId) (game : Game.t)
    (eventsForTurn : list Event.t) : M (list Event.t) :=
  match n with
  | O => mret eventsForTurn
  | S n' =>
      threatActor ← _generateThreatActor (Game.currentTurn game / Game.maxTurns game)%float;
      asset ← _generateAsset (Game.allowUnavoidableIncidents game);
      securityAreas ← _generateSecurityAreas (Game.source game);
      threatActor ← defined threatActor;
      cost ← _generateCost (Game.minCostPerEvent game) (Game.maxCostPerEvent game)
               (ThreatActor.costModifier threatActor);
      asset ← defined asset;
      ids ← map_id securityAreas;
      event ← EventsService.create gameId (Game.currentTurn game) cost
                (ThreatActor.slug threatActor) (Asset.slug asset) ids;
      generate_events n' gameId game (eventsForTurn ++ [event])
  end.

Definition _simulateEventsForTurn (gameId : ObjectId) : M (list Event.t) :=
  game ← GameDocuments.get gameId;
  r ← Math_random;
  let numOfEvents :=
    JS.Math_floor (r * (Game.maxNumOfEvents game - Game.minNumOfEvents game)
                   + Game.minNumOfEvents game)%float in
  match JS.for_count numOfEvents with
  | None => hang
  | Some n => generate_events n gameId game []
  end.

Definition simulateTurn (gameId : ObjectId) : M unit :=
  events ← _simulateEventsForTurn gameId;
  found ← GameDocuments.findById_populate gameId;
  '(game, organisations) ← defined found;
  for_of organisations (λ organisation,
    OrganisationsService.saveBalance organisation (Game.currentTurn game);;
    for_of events (λ event,
      OrganisationsService.simulateEvent organisation (Event.id event);;
      mret ()));;
  for_of organisations (λ organisation,
    OrganisationsService.simulateNewTurn organisation (Game.moneyPerTurn game);;
    mret ()).

End SimulationsService.

(** [src/games/games.service.ts] *)
Module GamesService.

Definition save (id : ObjectId) (game : Game.t) : M unit :=
  write (set_Games <[id := game]>).

(** The end of [simulateTurn]: the game ends when the turn just played is
    the last one; otherwise the next turn begins. *)
Definition advance (updatedGame : Game.t) : Game.t :=
  if PrimFloat.leb (Game.maxTurns updatedGame) (Game.currentTurn updatedGame)
  then Game.set_state Ended updatedGame
  else
    Game.set_state Purchasing
      (Game.set_currentTurn (Game.currentTurn updatedGame + 1)%float updatedGame).

(** [simulateTurn] from the point where the turn is simulated. *)
Definition run_turn (gameId : ObjectId) (game : Game.t) : M Game.t :=
  let game := Game.set_readyOrganisations [] game in
  let game := Game.set_state Simulating game in
  save gameId game;;
  SimulationsService.simulateTurn gameId;;
  found ← GameDocuments.findById_populate gameId;
  '(updatedGame, _) ← defined found;
  let updatedGame := advance updatedGame in
  save gameId updatedGame;;
  mret (GameDocuments._basicDetails updatedGame).

Definition simulateTurn (gameId organisationId : ObjectId) : M Game.t :=
  found ← GameDocuments.findById_populate gameId;
  '(game, organisations) ← defined found;
  if decide (Game.state game = Ended)
  then throw (HttpError 403 "Game is already finished")
  else
    if decide (Game.gameType game = Competitive) then
      let game :=
        Game.set_readyOrganisations (Game.readyOrganisations game ++ [organisationId]) game in
      if decide (length (Game.readyOrganisations game) < length organisations)%nat then
        save gameId game;;
        mret (GameDocuments._basicDetails game)
      else run_turn gameId game
    else run_turn gameId game.

End GamesService.


(** ** Requests that wait, and the turns of a game *)

(** The organisations of a game as [populate] loads them. *)
Definition populated (w : world) (game : Game.t) : list ObjectId :=
  filter (λ id, is_Some (Organisations w !! id)) (Game.organisations game).

(** A request on a competitive game waits when, with the request counted,
    [readyOrganisations] is still shorter than the list of organisations. *)
Definition waits (w : world) (game : Game.t) : Prop :=
  Game.gameType game = Competitive
  ∧ length (Game.readyOrganisations game) + 1 < length (populated w game).

(** The game document as a request that runs the turn saves it before the
    simulation. *)
Definition simulating (game : Game.t) : Game.t :=
  Game.set_state Simulating (Game.set_readyOrganisations [] game).

(** The part of a game document that says where the game is. *)
Definition position (game : option Game.t) : option (float * float * GameState) :=
  (λ g, (Game.currentTurn g, Game.maxTurns g, Game.state g)) <$> game.

(** [played gameId n w w']: from [w], [n] simulate-turn requests on the game
    ran the turn and returned, and left [w']. Between two of them anything
    may happen (purchases, requests that wait, other games) that leaves the
    position of the game as it is. *)
Inductive played (gameId : ObjectId) : nat → world → world → Prop :=
  | played_none (w : world) : played gameId 0 w w
  | played_turn (n : nat) (w w1 w2 w3 : world) (organisationId : ObjectId)
      (game result : Game.t) :
      played gameId n w w1 →
      position (Games w2 !! gameId) = position (Games w1 !! gameId) →
      Games w2 !! gameId = Some game →
      ¬ waits w2 game →
      GamesService.simulateTurn gameId organisationId w2 = (Normal result, w3) →
      played gameId (S n) w w3.

(** ** Two sentences of the specification, as they are worded *)

(** "Increment [currentTurn]; if [currentTurn >= maxTurns], set
    [state = Ended]; otherwise set [state = Purchasing]." *)
Definition increment_then_compare (game : Game.t) : Game.t :=
  let game := Game.set_currentTurn (Game.currentTurn game + 1)%float game in
  Game.set_state
    (if PrimFloat.leb (Game.maxTurns game) (Game.currentTurn game) then Ended else Purchasing)
    game.

(** A request that runs the turn leaves the game as [increment_then_compare]
    says. *)
Definition advances_as_worded (w : world) (gameId organisationId : ObjectId) : Prop :=
  ∀ game result w',
    Games w !! gameId = Some game →
    ¬ waits w game →
    GamesService.simulateTurn gameId organisationId w = (Normal result, w') →
    Game.currentTurn result = Game.currentTurn (increment_then_compare game)
    ∧ Game.state result = Game.state (increment_then_compare game).


(** ** The settings shipped with the repository *)

Module Settings.

Definition threatActors : list ThreatActor.t := [
  ThreatActor.mk "script-kiddie" (Some 0.6%float) None (Some 0.25%float);
  ThreatActor.mk "hacktivist" (Some 0.25%float) (Some 0.25%float) (Some 0.6%float);
  ThreatActor.mk "rival-corporation" (Some 0.1%float) (Some 0.5%float) (Some 1%float);
  ThreatActor.mk "nation-state" (Some 0.05%float) (Some 0.75%float) (Some 2%float) ].

Definition assets : list Asset.t := [
  Asset.mk "desktop" "org-0-2" (Some 0.1%float);
  Asset.mk "byod" "org-0-0" (Some 0.05%float);
  Asset.mk "wifi" "org-2-3" (Some 0.05%float);
  Asset.mk "router" "org-3-3" (Some 0.1%float);
  Asset.mk "users" "org-1-0" (Some 0.1%float);
  Asset.mk "coffee" "org-2-0" (Some 0.05%float);
  Asset.mk "laptop" "org-3-1" (Some 0.1%float);
  Asset.mk "database" "org-3-0" (Some 0.1%float);
  Asset.mk "cloud" "inet-0-3" (Some 0.1%float);
  Asset.mk "ecommerce" "inet-0-2" (Some 0.1%float);
  Asset.mk "socmed" "inet-0-1" (Some 0.05%float);
  Asset.mk "web" "inet-0-0" (Some 0.1%float) ].

(** The assets for which [contrib/controls.json] has a control. *)
Definition assetsWithControls : list nat := [0; 3; 4; 6; 7; 8; 9; 10; 11].

End Settings.

(** ** Small worlds to run the code on *)

Module Scenario.

(** A random source that always returns [r]. *)
Definition always (r : float) : nat → float := λ _, r.

Definition securityAreas : list SecurityArea.t := [
  SecurityArea.mk 1 "1" 1 "original";
  SecurityArea.mk 2 "2" 2 "original";
  SecurityArea.mk 3 "3" 3 "original" ].

(** A server with the shipped settings and no game yet. *)
Definition server (random : nat → float) : world :=
  World ∅ ∅ ∅ securityAreas Settings.threatActors Settings.assets
    Settings.assetsWithControls random 0.

(** A control that takes the whole cost of an incident on a laptop. *)
Definition firewall : ImplementedControl.t :=
  ImplementedControl.mk 50 "Firewall" 500 1 (Some "laptop") "original" [1; 2]%N 0 0.

Definition acme : Organisation.t := Organisation.mk 7 "Acme" 1000 [firewall] [7]%N [] [].

Definition incident : Event.t := Event.mk 100 1 1 200 "laptop" "script-kiddie" [2]%N.

(** Acme, before the incident is applied to it. *)
Definition office : world :=
  set_Events <[100%N := incident]>
    (set_Organisations <[10%N := acme]> (server (always 0.5))).

(** A new organisation: no money yet, no turn played. *)
Definition startup : Organisation.t := Organisation.mk 8 "Startup" 0 [] [8]%N [] [].

Definition garage : world := set_Organisations <[11%N := startup]> (server (always 0.5)).

(** A single-player game of five turns, at turn [turn]. *)
Definition solo (turn : float) : Game.t :=
  Game.mk 7 SinglePlayer turn 5 1000 Purchasing "original" 1 3 250 3000 true [10]%N [].

Definition solo_world (turn : float) : world :=
  set_Games <[1%N := solo turn]> office.



(** A finished game. *)
Definition finished : Game.t := Game.set_state Ended (solo 5).

Definition finished_world : world := set_Games <[1%N := finished]> office.

(** Catalogs of assets for the weighted selection. *)
Definition unweighted : list Asset.t := [
  Asset.mk "desktop" "org-0-2" None;
  Asset.mk "laptop" "org-3-1" None ].

Definition uneven : list Asset.t := [
  Asset.mk "desktop" "org-0-2" (Some 0.05%float);
  Asset.mk "laptop" "org-3-1" (Some 0.5%float);
  Asset.mk "router" "org-3-3" (Some 0.05%float);
  Asset.mk "web" "inet-0-0" (Some 0.05%float) ].

Definition with_assets (assets : list Asset.t) (random : nat → float) : world :=
  World ∅ ∅ ∅ securityAreas Settings.threatActors assets [] random 0.

End Scenario.


(** ** Auxiliary definitions for the proofs *)

(** [keeps f m]: the call [m] leaves the part [f] of the world as it was,
    however it completes. *)
Definition keeps {A B} (f : world → B) (m : M A) : Prop :=
  ∀ w, f (m w).2 = f w.

(** What [simulateEvent] does to an organisation that exists, for an event
    that exists. *)
Definition experienced (event : Event.t) (organisation : Organisation.t)
    : Organisation.t :=
  let '(controls, OrganisationsService.Mitigation mitigated mitigatedBy mitigatedCost) :=
    OrganisationsService.scan event (Organisation.controls organisation) in
  Organisation.mk (Organisation.owner organisation) (Organisation.name organisation)
    (Organisation.balance organisation - JS.or mitigatedCost (Event.cost event))%float
    controls (Organisation.members organisation) (Organisation.pastBalances organisation)
    (Organisation.events organisation
       ++ [ExperiencedEvent.mk event mitigated mitigatedBy mitigatedCost]).

(** ** More of the services: definitions *)

(** [evolves R m]: however the call [m] completes, the world it leaves is
    related by [R] to the world it started from. *)
Definition evolves {A} (R : world → world → Prop) (m : M A) : Prop :=
  ∀ w, R w (m w).2.

(** The organisation as [saveBalance] saves it. *)
Definition snapshot (organisation : Organisation.t) : Organisation.t :=
  Organisation.set_pastBalances
    (Organisation.pastBalances organisation ++ [Organisation.balance organisation])
    organisation.

(** The organisation as [simulateNewTurn] saves it. *)
Definition credited (moneyPerTurn : float) (organisation : Organisation.t)
    : Organisation.t :=
  Organisation.set_balance (Organisation.balance organisation + moneyPerTurn)%float
    organisation.


(** What identifies an object of a catalog: everything but its probability. *)
Definition actor_identity (a : ThreatActor.t) : string * option float * option float :=
  (ThreatActor.slug a, ThreatActor.includeFrom a, ThreatActor.costModifier a).

Definition asset_identity (a : Asset.t) : string * string :=
  (Asset.slug a, Asset.location a).

(** What no part of a turn does: between [w] and [w'] every stored event is
    kept as it is, no organisation appears or disappears, the security areas,
    the references to the assets with controls and the random source are the
    same, and the catalogs hold the same objects in the same order, with at
    most other probabilities; random numbers are only drawn, never put
    back. *)
Definition turn_frame (w w' : world) : Prop :=
  Events w ⊆ Events w'
  ∧ dom (Organisations w') = dom (Organisations w)
  ∧ SecurityAreas w' = SecurityAreas w
  ∧ _assetsWithControls w' = _assetsWithControls w
  ∧ actor_identity <$> _threatActors w' = actor_identity <$> _threatActors w
  ∧ asset_identity <$> _assets w' = asset_identity <$> _assets w
  ∧ random_source w' = random_source w
  ∧ random_calls w ≤ random_calls w'.

(** The organisations that are not among [these] are the same in [w'] as
    in [w]. *)
Definition others_untouched (these : list ObjectId) (w w' : world) : Prop :=
  ∀ id, id ∉ these → Organisations w' !! id = Organisations w !! id.

(** Simulate-turn requests on one game, one after the other, each from the
    world the one before has left, however it completed. *)
Definition after_requests (gameId : ObjectId) (requesters : list ObjectId) (w : world)
    : world :=
  foldl (λ w organisationId, (GamesService.simulateTurn gameId organisationId w).2)
    w requesters.

(** ** More small worlds *)

Module Cases.

(** Three controls: one on another asset, then two on laptops that share
    security area 2 with the incident of [Scenario]. *)
Definition camera : ImplementedControl.t :=
  ImplementedControl.mk 51 "Camera" 300 0.5 (Some "desktop") "original" [2]%N 0 0.

Definition backup : ImplementedControl.t :=
  ImplementedControl.mk 52 "Backup" 400 0.25 (Some "laptop") "original" [2; 3]%N 0 0.

Definition encryption : ImplementedControl.t :=
  ImplementedControl.mk 53 "Encryption" 900 0.75 (Some "laptop") "original" [2]%N 0 0.

(** A control that names no asset. *)
Definition policy : ImplementedControl.t :=
  ImplementedControl.mk 54 "Policy" 100 0.5 None "original" [1; 2; 3]%N 0 0.

Definition fortress : Organisation.t :=
  Organisation.mk 7 "Fortress" 1000 [camera; backup; encryption] [7]%N [] [].

Definition bureau : Organisation.t :=
  Organisation.mk 7 "Bureau" 1000 [camera; policy] [7]%N [] [].

Definition town : world :=
  set_Organisations (λ organisations, <[12%N := fortress]> (<[13%N := bureau]> organisations))
    Scenario.office.

(** The town with the single-player game of [Scenario], which Acme plays. *)
Definition district : world := set_Games <[1%N := Scenario.solo 1]> town.

(** Acme with the balance of turn 1 already saved. *)
Definition replayed : world :=
  set_Organisations <[10%N := snapshot Scenario.acme]> (Scenario.solo_world 1).

End Cases.

(** ** Controls on offer, bought and removed *)

(** [src/games/control.model.ts]: a control on offer, with the fields that
    an implemented control keeps. Its identifier is the key under which the
    collection holds it. *)
Module Control.
Record t := mk {
  name : string;
  cost : float;
  effectiveness : float;
  asset : option string;
  source : string;
  securityAreas : list ObjectId;
}.
End Control.

(** [src/games/controls.service.ts]. No call modelled here writes the
    collection of controls, so the calls take it as they find it. *)
Module ControlsService.
Section Collection.
Context (Controls : gmap ObjectId Control.t).

Definition _basicDetails (document : Control.t) : Control.t := document.

(** [Service.get] *)
Definition get (id : ObjectId) : M Control.t :=
  match Controls !! id with
  | Some document => mret (_basicDetails document)
  | None => throw (Message "No document found matching provided ID.")
  end.

(** [!!(await Control.find({ asset: asset.slug, source }).countDocuments())] *)
Definition hasControls (slug source : string) : bool :=
  bool_decide
    (map_Exists (λ _ control,
       Control.asset control = Some slug ∧ Control.source control = source) Controls).

(** The result holds the objects of [assets] themselves, not copies. *)
Definition filterAssetsWithControls (assets : list Asset.t) (source : string) : list nat :=
  SimulationsService.filter_refs (λ asset, hasControls (Asset.slug asset) source) assets 0.

End Collection.
End ControlsService.

(** [src/organisations/organisations.service.ts]: the two calls on the
    controls of an organisation. *)
Module OrganisationControls.
Section Collection.
Context (Controls : gmap ObjectId Control.t).

(** [{ ...control, mitigation: 0.0, turnImplemented: 0 }] with
    [control['_id'] = control.id] *)
Definition implemented (id : ObjectId) (control : Control.t) : ImplementedControl.t :=
  ImplementedControl.mk id (Control.name control) (Control.cost control)
    (Control.effectiveness control) (Control.asset control) (Control.source control)
    (Control.securityAreas control) 0 0.

Definition addControl (organisationId newControlId : ObjectId) : M Organisation.t :=
  organisation ← _getById Organisations organisationId;
  control ← ControlsService.get Controls newControlId;
  let organisation :=
    Organisation.set_controls
      (Organisation.controls organisation ++ [implemented newControlId control])
      organisation in
  let organisation :=
    Organisation.set_balance (Organisation.balance organisation - Control.cost control)%float
      organisation in
  OrganisationsService.save organisationId organisation;;
  mret (OrganisationsService._basicDetails organisation).

(** [control.id === controlToRemove.id] compares the identifiers as
    strings. *)
Definition removeControl (organisationId controlId : ObjectId) : M bool :=
  organisation ← _getById Organisations organisationId;
  controlToRemove ← ControlsService.get Controls controlId;
  if existsb (λ control, bool_decide (ImplementedControl.id control = controlId))
       (Organisation.controls organisation)
  then
    let organisation :=
      Organisation.set_controls
        (filter (λ control, ImplementedControl.id control ≠ controlId)
           (Organisation.controls organisation))
        organisation in
    OrganisationsService.save organisationId organisation;;
    mret true
  else throw (Message "Organisation has not implemented control.").

End Collection.
End OrganisationControls.

(** [src/games/simulations.service.ts], [getSettings]: [threatActors] and
    [assets] are what [Settings.findOne] finds under the two keys, [None]
    when there is no such setting. *)
Definition getSettings (Controls : gmap ObjectId Control.t)
    (threatActors : option (list ThreatActor.t)) (assets : option (list Asset.t)) : M unit :=
  threatActors ← defined threatActors;
  assets ← defined assets;
  write (λ w,
    World (Games w) (Organisations w) (Events w) (SecurityAreas w) threatActors assets
      (ControlsService.filterAssetsWithControls Controls assets "original")
      (random_source w) (random_calls w)).

Module Shop.

Definition firewall : Control.t :=
  Control.mk "Firewall" 500 0.5 (Some "laptop") "original" [1; 2]%N.

Definition training : Control.t :=
  Control.mk "Training" 1500 0.25 (Some "users") "original" [3]%N.

Definition vault : Control.t :=
  Control.mk "Vault" 800 0.5 (Some "coffee") "iso27001" [1]%N.

Definition controls : gmap ObjectId Control.t :=
  <[60%N := firewall]> (<[61%N := training]> (<[62%N := vault]> ∅)).

End Shop.

(** ** The JavaScript layer on small inputs *)

Example ToBoolean_falsy :
  JS.ToBoolean 0 = false ∧ JS.ToBoolean (-0) = false ∧ JS.ToBoolean nan = false
  ∧ JS.ToBoolean 0.1 = true ∧ JS.ToBoolean (-79) = true.
Proof. by vm_compute. Qed.

Example or_default :
  JS.or None 0.1 = 0.1%float ∧ JS.or (Some 0%float) 200 = 200%float
  ∧ JS.or (Some nan) 0.1 = 0.1%float ∧ JS.or (Some 0.3%float) 0.1 = 0.3%float.
Proof. by vm_compute. Qed.

Example binary64_sum : (0.1 + 0.2)%float = 0.30000000000000004%float.
Proof. reflexivity. Qed.

Example Math_floor_values :
  JS.Math_floor 2.5 = 2%float ∧ JS.Math_floor (-0.25) = (-1)%float
  ∧ JS.Math_floor 3 = 3%float ∧ JS.Math_floor nan = nan.
Proof. by vm_compute. Qed.

Example toFixed2_values :
  JS.toFixed2 0.125 = 0.13%float ∧ JS.toFixed2 1.005 = 1%float
  ∧ JS.toFixed2 8.345 = 8.35%float ∧ JS.toFixed2 (-1.555) = (-1.55)%float
  ∧ JS.toFixed2 1000.0000000000001 = 1000%float.
Proof. by vm_compute. Qed.

Example get_values :
  JS.get [10; 20; 30]%float 1 = Some 20%float ∧ JS.get [10; 20; 30]%float 3 = None
  ∧ JS.get [10; 20; 30]%float (-1) = None ∧ JS.get [10; 20; 30]%float 0.5 = None.
Proof. by vm_compute. Qed.

Example splice1_values :
  JS.splice1 ["a"; "b"; "c"] 1 = ["a"; "c"] ∧ JS.splice1 ["a"; "b"; "c"] (-1) = ["a"; "b"]
  ∧ JS.splice1 ["a"; "b"; "c"] 3 = ["a"; "b"; "c"] ∧ JS.splice1 ([] : list string) (-1) = [].
Proof. by vm_compute. Qed.

Example for_count_values :
  JS.for_count 3 = Some 3 ∧ JS.for_count 0 = Some 0 ∧ JS.for_count nan = Some 0
  ∧ JS.for_count infinity = None.
Proof. by vm_compute. Qed.

Example sort_values :
  JS.sort (λ a b, a - b)%float [Some 3; None; Some 1; Some 2]%float
  = [Some 1; Some 2; Some 3; None]%float.
Proof. by vm_compute. Qed.

(** ** Reasoning about service calls *)

Lemma bind_run {A B} (m : M A) (k : A → M B) (w : world) :
  (m ≫= k) w =
    match m w with
    | (Normal a, w') => k a w'
    | (Throw e, w') => (Throw e, w')
    | (Hang, w') => (Hang, w')
    end.
Proof. reflexivity. Qed.

Lemma ret_run {A} (a : A) (w : world) : (mret a : M A) w = (Normal a, w).
Proof. reflexivity. Qed.

Section Keeps.
Context {B : Type} (f : world → B).

Lemma keeps_ret {A} (a : A) : keeps f (mret a).
Proof. by intros w. Qed.

Lemma keeps_throw {A} (e : exn) : keeps f (@throw A e).
Proof. by intros w. Qed.

Lemma keeps_hang {A} : keeps f (@hang A).
Proof. by intros w. Qed.

Lemma keeps_read {A} (g : world → A) : keeps f (read g).
Proof. by intros w. Qed.

Lemma keeps_write (g : world → world) : (∀ w, f (g w) = f w) → keeps f (write g).
Proof. intros Hg w. apply Hg. Qed.

Lemma keeps_bind {A C} (m : M A) (k : A → M C) :
  keeps f m → (∀ a, keeps f (k a)) → keeps f (m ≫= k).
Proof.
  intros Hm Hk w. rewrite bind_run. specialize (Hm w).
  destruct (m w) as [[a|e|] w1]; simpl in *; [|done..].
  by rewrite Hk.
Qed.

Lemma keeps_defined {A} (x : option A) : keeps f (defined x).
Proof. destruct x; [apply keeps_ret | apply keeps_throw]. Qed.

Lemma keeps_for_of {A} (l : list A) (body : A → M unit) :
  (∀ x, keeps f (body x)) → keeps f (for_of l body).
Proof.
  intros Hbody. induction l as [|x l IH]; simpl.
  - apply keeps_ret.
  - apply keeps_bind; [apply Hbody | by intros _].
Qed.

Lemma keeps_getById {T} (collection : world → gmap ObjectId T) (id : ObjectId) :
  keeps f (_getById collection id).
Proof.
  apply keeps_bind; [apply keeps_read|].
  intros [d|]; [apply keeps_ret | apply keeps_throw].
Qed.

End Keeps.

(** One step of a frame proof: split the call at its outermost construct. *)
Ltac frame_step :=
  first
    [ apply keeps_ret | apply keeps_throw | apply keeps_hang | apply keeps_read
    | apply keeps_defined | apply keeps_getById
    | apply keeps_write; by intros []
    | apply keeps_bind; [|intros ?]
    | apply keeps_for_of; intros ? ].

Ltac frame := repeat (frame_step || case_match || case_decide).

(** *** The turn simulation does not write game documents *)

Lemma keeps_Games_random : keeps Games Math_random.
Proof. by intros []. Qed.

Section KeepsGamesWeighted.
Context {T : Type}.
Context (catalog : world → list T) (set_catalog : (list T → list T) → world → world).
Context (probability : T → option float) (set_probability : option float → T → T).
Hypothesis set_catalog_Games : ∀ g w, Games (set_catalog g w) = Games w.

Lemma keeps_Games_sum_probabilities n refs s :
  keeps Games (SimulationsService.sum_probabilities catalog probability n refs s).
Proof.
  revert s. induction refs as [|ref refs IH]; intros s; simpl; [frame|].
  apply keeps_bind; [unfold SimulationsService.object; frame | intros x; apply IH].
Qed.

Lemma keeps_Games_select rand refs s :
  keeps Games (SimulationsService.select catalog probability rand refs s).
Proof.
  revert s. induction refs as [|ref refs IH]; intros s; simpl; [frame|].
  apply keeps_bind; [unfold SimulationsService.object; frame | intros x].
  case_match; [frame | apply IH].
Qed.

Lemma keeps_Games_generate refs :
  keeps Games
    (SimulationsService.generate catalog set_catalog probability set_probability refs).
Proof.
  unfold SimulationsService.generate.
  apply keeps_bind; [apply keeps_Games_random | intros rand].
  apply keeps_bind; [apply keeps_Games_sum_probabilities | intros s].
  apply keeps_bind; [| intros _; apply keeps_Games_select].
  case_match; [|frame].
  unfold SimulationsService.normalise, SimulationsService.object.
  apply keeps_for_of; intros ref. apply keeps_bind; [frame|intros x].
  apply keeps_write. intros w. apply set_catalog_Games.
Qed.

End KeepsGamesWeighted.

Lemma keeps_Games_generateSecurityAreas source :
  keeps Games (SimulationsService._generateSecurityAreas source).
Proof.
  assert (Hpick : ∀ n all picked,
    keeps Games (SimulationsService.pick_securityAreas n all picked)).
  { induction n as [|n IH]; intros all picked; simpl; [frame|].
    apply keeps_bind; [apply keeps_Games_random | intros r; apply IH]. }
  unfold SimulationsService._generateSecurityAreas,
    SecurityAreasService.getAllBySource, SecurityAreasService._getAllBySource.
  apply keeps_bind; [frame | intros all].
  apply keeps_bind; [apply keeps_Games_random | intros r].
  case_match; [|frame]. apply keeps_bind; [apply Hpick | intros; frame].
Qed.

Lemma keeps_Games_map_id securityAreas :
  keeps Games (SimulationsService.map_id securityAreas).
Proof.
  induction securityAreas as [|a l IH]; simpl; [frame|].
  apply keeps_bind; [frame | intros x].
  apply keeps_bind; [apply IH | intros ids; frame].
Qed.

Lemma keeps_Games_simulateEventsForTurn gameId :
  keeps Games (SimulationsService._simulateEventsForTurn gameId).
Proof.
  assert (Hloop : ∀ n game events,
    keeps Games (SimulationsService.generate_events n gameId game events)).
  { induction n as [|n IH]; intros game events; simpl; [frame|].
    apply keeps_bind; [|intros threatActor].
    { unfold SimulationsService._generateThreatActor.
      apply keeps_bind; [frame | intros all]. by apply keeps_Games_generate. }
    apply keeps_bind; [|intros asset].
    { unfold SimulationsService._generateAsset.
      apply keeps_bind; [frame | intros refs]. by apply keeps_Games_generate. }
    apply keeps_bind; [apply keeps_Games_generateSecurityAreas | intros areas].
    apply keeps_bind; [frame | intros threatActor'].
    apply keeps_bind; [|intros cost].
    { unfold SimulationsService._generateCost.
      apply keeps_bind; [apply keeps_Games_random | intros; frame]. }
    apply keeps_bind; [frame | intros asset'].
    apply keeps_bind; [apply keeps_Games_map_id | intros ids].
    apply keeps_bind; [unfold EventsService.create; frame | intros event; apply IH]. }
  unfold SimulationsService._simulateEventsForTurn, GameDocuments.get.
  apply keeps_bind; [frame | intros game].
  apply keeps_bind; [apply keeps_Games_random | intros r].
  case_match; [apply Hloop | frame].
Qed.

Lemma keeps_Games_simulateTurn gameId :
  keeps Games (SimulationsService.simulateTurn gameId).
Proof.
  unfold SimulationsService.simulateTurn.
  apply keeps_bind; [apply keeps_Games_simulateEventsForTurn | intros events].
  unfold GameDocuments.findById_populate,
    OrganisationsService.saveBalance, OrganisationsService.simulateEvent,
    OrganisationsService.simulateNewTurn, OrganisationsService.save, EventsService.get.
  frame.
Qed.

(** *** Running the turn *)

Lemma run_turn_Games (w : world) (gameId : ObjectId) (game : Game.t) :
  match GamesService.run_turn gameId game w with
  | (Normal result, w') =>
      result = GamesService.advance (simulating game)
      ∧ Games w' = <[gameId := result]> (Games w)
  | (_, w') => Games w' = <[gameId := simulating game]> (Games w)
  end.
Proof.
  unfold GamesService.run_turn, GamesService.save.
  rewrite bind_run. cbn [write].
  set (w1 := set_Games _ w).
  assert (H1 : Games w1 = <[gameId := simulating game]> (Games w)) by done.
  clearbody w1. rewrite bind_run.
  pose proof (keeps_Games_simulateTurn gameId w1) as Hsim.
  destruct (SimulationsService.simulateTurn gameId w1) as [[[]|e|] w2];
    simpl in Hsim; [|congruence..].
  rewrite bind_run. unfold GameDocuments.findById_populate. cbn [read]. cbv beta.
  rewrite Hsim, H1, lookup_insert_eq. cbn.
  split; [done|]. unfold set_Games; cbn [Games]. by rewrite Hsim, H1, insert_insert_eq.
Qed.

Lemma simulateTurn_runs (w : world) (gameId organisationId : ObjectId) (game : Game.t) :
  Games w !! gameId = Some game →
  Game.state game ≠ Ended →
  ¬ waits w game →
  GamesService.simulateTurn gameId organisationId w
  = GamesService.run_turn gameId
      (if decide (Game.gameType game = Competitive)
       then Game.set_readyOrganisations (Game.readyOrganisations game ++ [organisationId]) game
       else game) w.
Proof.
  intros Hgame Hstate Hwaits.
  unfold GamesService.simulateTurn, GameDocuments.findById_populate.
  rewrite bind_run. cbn [read]. rewrite Hgame. cbn.
  rewrite bind_run, ret_run.
  rewrite decide_False by done.
  destruct (decide (Game.gameType game = Competitive)) as [Hc|]; [|done].
  rewrite decide_False; [done|].
  intros Hlt. apply Hwaits. split; [done|].
  unfold populated. cbn in Hlt. rewrite length_app in Hlt. exact Hlt.
Qed.


(** *** Applying an event to an organisation *)

(** The scan stops at the first control that mitigates the event: the
    controls before it do not match and are left alone, the control itself
    gets the mitigated amount added, the controls after it are not looked
    at. *)
Lemma scan_first_match (event : Event.t) (controls : list ImplementedControl.t) :
  match OrganisationsService.scan event controls with
  | (controls', OrganisationsService.Mitigation false mitigatedBy mitigatedCost) =>
      mitigatedBy = None ∧ mitigatedCost = None ∧ controls' = controls
      ∧ Forall (λ c, OrganisationsService.mitigates c event = false) controls
  | (controls', OrganisationsService.Mitigation true mitigatedBy mitigatedCost) =>
      ∃ before control after,
        controls = before ++ control :: after
        ∧ Forall (λ c, OrganisationsService.mitigates c event = false) before
        ∧ OrganisationsService.mitigates control event = true
        ∧ mitigatedBy = Some (ImplementedControl.id control)
        ∧ let residual :=
            (Event.cost event
             - Event.cost event * ImplementedControl.effectiveness control)%float in
          mitigatedCost = Some residual
          ∧ controls'
            = before
              ++ ImplementedControl.set_mitigation
                   (ImplementedControl.mitigation control
                    + (Event.cost event - residual))%float control
              :: after
  end.
Proof.
  induction controls as [|control rest IH]; simpl.
  - by repeat split.
  - destruct (OrganisationsService.mitigates control event) eqn:Hm.
    + exists [], control, rest. by repeat split.
    + destruct (OrganisationsService.scan event rest) as [rest' [[] mitigatedBy cost]].
      * destruct IH as (before & c & after & -> & Hbefore & Hc & Hby & Hcost & ->).
        exists (control :: before), c, after.
        repeat split; [by constructor | done..].
      * destruct IH as (-> & -> & -> & Hrest). repeat split. by constructor.
Qed.

Lemma simulateEvent_run (w : world) (organisationId eventId : ObjectId)
    (organisation : Organisation.t) (event : Event.t) :
  Organisations w !! organisationId = Some organisation →
  Events w !! eventId = Some event →
  OrganisationsService.simulateEvent organisationId eventId w
  = (Normal (OrganisationsService._basicDetails (experienced event organisation)),
     set_Organisations <[organisationId := experienced event organisation]> w).
Proof.
  intros Horg Hevent.
  unfold OrganisationsService.simulateEvent, EventsService.get, _getById, experienced.
  rewrite !bind_run. cbn [read]. rewrite Horg.
  rewrite ret_run, !bind_run. cbn [read]. rewrite Hevent.
  rewrite !ret_run. unfold EventsService._basicDetails.
  by destruct (OrganisationsService.scan event (Organisation.controls organisation))
    as [controls [mitigated mitigatedBy mitigatedCost]].
Qed.

Lemma simulateTurn_returns_not_ended (w w' : world) (gameId organisationId : ObjectId)
    (game result : Game.t) :
  Games w !! gameId = Some game →
  GamesService.simulateTurn gameId organisationId w = (Normal result, w') →
  Game.state game ≠ Ended.
Proof.
  intros Hgame Hrun Hended. revert Hrun.
  unfold GamesService.simulateTurn, GameDocuments.findById_populate.
  rewrite bind_run. cbn [read]. rewrite Hgame. cbn.
  rewrite bind_run, ret_run. by rewrite decide_True.
Qed.

Lemma simulateTurn_advance (w w' : world) (gameId organisationId : ObjectId)
    (game result : Game.t) :
  Games w !! gameId = Some game →
  ¬ waits w game →
  GamesService.simulateTurn gameId organisationId w = (Normal result, w') →
  result = GamesService.advance (simulating game)
  ∧ Games w' = <[gameId := result]> (Games w).
Proof.
  intros Hgame Hwaits Hrun.
  pose proof (simulateTurn_returns_not_ended _ _ _ _ _ _ Hgame Hrun) as Hstate.
  rewrite (simulateTurn_runs _ _ _ _ Hgame Hstate Hwaits) in Hrun.
  match type of Hrun with GamesService.run_turn _ ?g _ = _ =>
    pose proof (run_turn_Games w gameId g) as Hturn;
    replace (simulating g) with (simulating game) in Hturn by (by case_decide)
  end.
  by rewrite Hrun in Hturn.
Qed.

(** ** The claims *)

(** C8. A simulate-turn request on a game whose state is [Ended] is rejected
    with the error "Game is already finished", and the world after the
    request is the world before it: the game, every organisation, the event
    log, the cached settings and the random source are untouched. *)
Theorem simulateTurn_rejects_ended_game (w : world) (gameId organisationId : ObjectId)
    (game : Game.t) :
  Games w !! gameId = Some game →
  Game.state game = Ended →
  GamesService.simulateTurn gameId organisationId w
  = (Throw (HttpError 403 "Game is already finished"), w).
Proof.
  intros Hgame Hended.
  unfold GamesService.simulateTurn, GameDocuments.findById_populate.
  rewrite bind_run. cbn [read]. rewrite Hgame. cbn.
  rewrite bind_run, ret_run. by rewrite decide_True.
Qed.

Lemma simulateTurn_rejects_ended_game_witness :
  Games Scenario.finished_world !! 1%N = Some Scenario.finished
  ∧ Game.state Scenario.finished = Ended
  ∧ GamesService.simulateTurn 1 10 Scenario.finished_world
    = (Throw (HttpError 403 "Game is already finished"), Scenario.finished_world).
Proof.
  split; [reflexivity|]. split; [reflexivity|].
  apply (simulateTurn_rejects_ended_game _ _ _ Scenario.finished); reflexivity.
Defined.



(** C2 (amended). When a simulate-turn request has run the turn and returns,
    the game it leaves is decided by the turn counter as it was before the
    request: if [currentTurn >= maxTurns] the state is [Ended] and the
    counter stays; otherwise the counter goes up by one and the state is
    [Purchasing]. So a game with [maxTurns = 5] that starts at
    [currentTurn = 1] has, after [n] played turns, [currentTurn = min (n+1) 5];
    it is [Ended] after exactly five played turns, the fifth being the one
    whose turn counter is 5, and no sixth turn can be played. *)
Theorem game_ends_on_last_turn (gameId : ObjectId) :
  (∀ (w w' : world) (organisationId : ObjectId) (game result : Game.t),
     Games w !! gameId = Some game →
     ¬ waits w game →
     GamesService.simulateTurn gameId organisationId w = (Normal result, w') →
     Games w' !! gameId = Some result
     ∧ Game.maxTurns result = Game.maxTurns game
     ∧ if PrimFloat.leb (Game.maxTurns game) (Game.currentTurn game)
       then Game.state result = Ended
            ∧ Game.currentTurn result = Game.currentTurn game
       else Game.state result = Purchasing
            ∧ Game.currentTurn result = (Game.currentTurn game + 1)%float)
  ∧ (∀ (n : nat) (w w' : world) (game : Game.t),
       Games w !! gameId = Some game →
       Game.currentTurn game = 1%float →
       Game.maxTurns game = 5%float →
       Game.state game ≠ Ended →
       played gameId n w w' →
       ∃ game',
         Games w' !! gameId = Some game'
         ∧ n ≤ 5
         ∧ Game.currentTurn game' = JS.of_Z (Z.of_nat (min (S n) 5))
         ∧ (Game.state game' = Ended ↔ n = 5)).
Proof.
  assert (Hstep : ∀ (w w' : world) (organisationId : ObjectId) (game result : Game.t),
     Games w !! gameId = Some game →
     ¬ waits w game →
     GamesService.simulateTurn gameId organisationId w = (Normal result, w') →
     Games w' !! gameId = Some result
     ∧ Game.maxTurns result = Game.maxTurns game
     ∧ if PrimFloat.leb (Game.maxTurns game) (Game.currentTurn game)
       then Game.state result = Ended
            ∧ Game.currentTurn result = Game.currentTurn game
       else Game.state result = Purchasing
            ∧ Game.currentTurn result = (Game.currentTurn game + 1)%float).
  { intros w w' organisationId game result Hgame Hwaits Hrun.
    destruct (simulateTurn_advance _ _ _ _ _ _ Hgame Hwaits Hrun) as [-> ->].
    split; [apply lookup_insert_eq|].
    unfold GamesService.advance. cbn.
    by destruct (PrimFloat.leb (Game.maxTurns game) (Game.currentTurn game)). }
  split; [exact Hstep|].
  intros n w w' game Hgame Hturn Hmax Hstate Hplayed.
  assert (∃ game',
    Games w' !! gameId = Some game'
    ∧ Game.maxTurns game' = 5%float
    ∧ n ≤ 5
    ∧ Game.currentTurn game' = JS.of_Z (Z.of_nat (min (S n) 5))
    ∧ (Game.state game' = Ended ↔ n = 5)) as (game' & ? & _ & ? & ? & ?);
    [|by exists game'].
  induction Hplayed as [w|n w w1 w2 w3 organisationId game2 result _ IH Hpos Hgame2 Hwaits Hrun].
  - exists game. repeat split; [done..|lia| |done|done].
    by rewrite Hturn.
  - destruct (IH Hgame) as (game1 & Hgame1 & Hmax1 & Hn & Hturn1 & Hended1).
    rewrite Hgame1, Hgame2 in Hpos. injection Hpos as Hturn2 Hmax2 Hstate2.
    pose proof (simulateTurn_returns_not_ended _ _ _ _ _ _ Hgame2 Hrun) as Hnot.
    assert (n ≠ 5) as Hn5 by (intros Hn5; apply Hnot; rewrite Hstate2; by apply Hended1).
    destruct (Hstep _ _ _ _ _ Hgame2 Hwaits Hrun) as (Hstored & Hmax3 & Hadv).
    rewrite Hmax2, Hmax1, Hturn2, Hturn1 in Hadv. rewrite Hmax2, Hmax1 in Hmax3.
    exists result. split; [done|]. split; [done|].
    generalize dependent (Game.state result).
    generalize dependent (Game.currentTurn result).
    intros turn' state'.
    destruct n as [|[|[|[|[|n]]]]]; [..|lia];
      vm_compute; intros [-> ->];
      (split; [lia|]); (split; [reflexivity|]);
      split; (discriminate || lia || done).
Qed.

Lemma single_player_never_waits (w : world) (game : Game.t) :
  Game.gameType game = SinglePlayer → ¬ waits w game.
Proof. intros Hsingle [Hcompetitive _]. congruence. Qed.

Lemma game_ends_on_last_turn_witness :
  let w := Scenario.solo_world 1 in
  let w' := (GamesService.simulateTurn 1 10 w).2 in
  Games w !! 1%N = Some (Scenario.solo 1)
  ∧ played 1 1 w w'
  ∧ ∃ game',
      Games w' !! 1%N = Some game'
      ∧ Game.currentTurn game' = 2%float
      ∧ Game.state game' ≠ Ended.
Proof.
  intros w w'.
  assert (Hrun : GamesService.simulateTurn 1 10 w = (Normal (Scenario.solo 2), w'))
    by (vm_compute; reflexivity).
  assert (Hplayed : played 1 1 w w').
  { eapply (played_turn 1 0 w w w w' 10 (Scenario.solo 1));
      [constructor | reflexivity | reflexivity | | exact Hrun].
    by apply single_player_never_waits. }
  split; [reflexivity|]. split; [exact Hplayed|].
  destruct (proj2 (game_ends_on_last_turn 1) 1 w w' (Scenario.solo 1))
    as (game' & Hgame' & _ & Hturn & Hended); [reflexivity..|discriminate|exact Hplayed|].
  exists game'. split; [done|]. split; [by rewrite Hturn|].
  intros Hstate. apply Hended in Hstate. discriminate.
Defined.

(** Counterexample to C2 as worded: at turn 4 of 5 the request leaves the game at turn 5
    in [Purchasing], where "increment, then compare" would end it. *)
Lemma advances_as_worded_counterexample :
  ¬ advances_as_worded (Scenario.solo_world 4) 1 10.
Proof.
  intros Hworded.
  destruct (Hworded (Scenario.solo 4) (Scenario.solo 5)
              (GamesService.simulateTurn 1 10 (Scenario.solo_world 4)).2)
    as [_ Hstate].
  - reflexivity.
  - by apply single_player_never_waits.
  - vm_compute. reflexivity.
  - vm_compute in Hstate. discriminate.
Qed.





(** Beyond that input, for every organisation and event: the first
    control that matches mitigates, and the entry and the accumulator are as
    the claim says. The debit is the residual cost when that is a truthy
    number and the full cost when it is 0 or NaN; an event that no control
    matches is debited in full. *)
Lemma simulateEvent_debit (event : Event.t) (organisation : Organisation.t) :
  let organisation' := experienced event organisation in
  match OrganisationsService.scan event (Organisation.controls organisation) with
  | (_, OrganisationsService.Mitigation true mitigatedBy mitigatedCost) =>
      ∃ entry residual,
        Organisation.events organisation' = Organisation.events organisation ++ [entry]
        ∧ ExperiencedEvent.mitigated entry = true
        ∧ ExperiencedEvent.mitigatedBy entry = mitigatedBy
        ∧ ExperiencedEvent.mitigatedCost entry = Some residual
        ∧ Organisation.balance organisation'
          = (Organisation.balance organisation
             - if JS.ToBoolean residual then residual else Event.cost event)%float
  | (_, OrganisationsService.Mitigation false _ _) =>
      ∃ entry,
        Organisation.events organisation' = Organisation.events organisation ++ [entry]
        ∧ ExperiencedEvent.mitigated entry = false
        ∧ Organisation.balance organisation'
          = (Organisation.balance organisation - Event.cost event)%float
  end.
Proof.
  intros organisation'. subst organisation'. unfold experienced.
  pose proof (scan_first_match event (Organisation.controls organisation)) as Hscan.
  destruct (OrganisationsService.scan event (Organisation.controls organisation))
    as [controls [[] mitigatedBy mitigatedCost]].
  - destruct Hscan as (before & control & after & _ & _ & _ & _ & -> & _).
    eexists _, _. by cbn.
  - destruct Hscan as (_ & -> & _). eexists. by cbn.
Qed.

(** C6 (the code departs from it). The guard of [saveBalance] tests the
    recorded balance for truthiness, and a recorded balance of 0 is falsy: a
    new organisation, whose balance is 0, has its balance saved twice for
    turn 1 and the second call raises nothing. *)
Theorem saveBalance_twice_with_zero_balance :
  let '(first, w1) := OrganisationsService.saveBalance 11 1 Scenario.garage in
  let '(second, w2) := OrganisationsService.saveBalance 11 1 w1 in
  Organisation.balance Scenario.startup = 0%float
  ∧ first = Normal ()
  ∧ second = Normal ()
  ∧ Organisation.pastBalances <$> Organisations w2 !! 11%N = Some [0%float; 0%float].
Proof. by vm_compute. Qed.

(** What [saveBalance] does for every organisation that exists: it raises
    when the slot of the turn holds a truthy number, and appends the balance
    otherwise. *)
Lemma saveBalance_run (w : world) (organisationId : ObjectId) (currentTurn : float)
    (organisation : Organisation.t) :
  Organisations w !! organisationId = Some organisation →
  OrganisationsService.saveBalance organisationId currentTurn w
  = if JS.ToBoolean
         (JS.ToNumber (JS.get (Organisation.pastBalances organisation) (currentTurn - 1)%float))
    then (Throw (HttpError 500 "Past balance already set!"), w)
    else (Normal (),
          set_Organisations
            <[organisationId :=
                Organisation.set_pastBalances
                  (Organisation.pastBalances organisation
                     ++ [Organisation.balance organisation]) organisation]> w).
Proof.
  intros Horg. unfold OrganisationsService.saveBalance, _getById.
  rewrite !bind_run. cbn [read]. rewrite Horg, ret_run. by case_match.
Qed.

(** So for every organisation without past balances whose balance is falsy,
    the balance of turn 1 is saved twice. *)
Lemma saveBalance_twice_falsy_balance (w : world) (organisationId : ObjectId)
    (organisation : Organisation.t) :
  Organisations w !! organisationId = Some organisation →
  Organisation.pastBalances organisation = [] →
  JS.ToBoolean (Organisation.balance organisation) = false →
  let '(first, w1) := OrganisationsService.saveBalance organisationId 1 w in
  let '(second, w2) := OrganisationsService.saveBalance organisationId 1 w1 in
  first = Normal ()
  ∧ second = Normal ()
  ∧ Organisation.pastBalances <$> Organisations w2 !! organisationId
    = Some [Organisation.balance organisation; Organisation.balance organisation].
Proof.
  intros Horg Hpast Hfalsy.
  rewrite (saveBalance_run _ _ _ _ Horg), Hpast. cbn [app].
  change (JS.ToBoolean (JS.ToNumber (JS.get [] (1 - 1)%float))) with false. cbv iota.
  match goal with |- context [set_Organisations <[_ := ?o]> w] => set (saved := o) end.
  rewrite (saveBalance_run _ _ _ saved) by apply lookup_insert_eq.
  change (JS.get (Organisation.pastBalances saved) (1 - 1)%float)
    with (Some (Organisation.balance organisation)).
  unfold JS.ToNumber; cbn [default id]. rewrite Hfalsy.
  repeat split. cbn. by rewrite lookup_insert_eq.
Qed.

(** The guard does its work when the balance saved is not zero: Acme's
    balance of 1000 is saved once, and the second call for the same turn
    raises. *)
Lemma saveBalance_twice_raises :
  let '(first, w1) := OrganisationsService.saveBalance 10 1 Scenario.office in
  let '(second, w2) := OrganisationsService.saveBalance 10 1 w1 in
  first = Normal ()
  ∧ second = Throw (HttpError 500 "Past balance already set!")
  ∧ w2 = w1.
Proof. by vm_compute. Qed.

(** C7 (the code departs from it). The cost is drawn from
    [random * (max - min + 1) + min], which reaches beyond [max]: with bounds
    500 and 5000 and a draw of 0.9999 the cost is 5000.55. *)
Theorem generateCost_exceeds_max :
  let w := Scenario.server (Scenario.always 0.9999) in
  (SimulationsService._generateCost 500 5000 (Some 1%float) w).1 = Normal 5000.55%float
  ∧ PrimFloat.ltb 5000 5000.55 = true.
Proof. by vm_compute. Qed.

(** The example of the specification: a base draw that rounds to 1000.00,
    with a cost modifier of 2, costs 2000. *)
Lemma generateCost_example :
  let w := Scenario.server (Scenario.always 0.11108642523883582) in
  JS.toFixed2 (0.11108642523883582 * (5000 - 500 + 1) + 500) = 1000%float
  ∧ (SimulationsService._generateCost 500 5000 (Some 2%float) w).1 = Normal 2000%float.
Proof. by vm_compute. Qed.

(** C9 (the code departs from it). The working array of
    [_generateThreatActor] is a local variable, but its elements are the
    objects of the cached catalog: normalising writes the new probabilities
    into the catalog. At a progress of 0.05 only the script kiddie is
    included, and the shipped probability 0.6 is overwritten with 1. *)
Theorem generateThreatActor_rewrites_catalog :
  let w := Scenario.server (Scenario.always 0.5) in
  let w' := (SimulationsService._generateThreatActor 0.05 w).2 in
  ThreatActor.probability <$> _threatActors w
  = [Some 0.6; Some 0.25; Some 0.1; Some 0.05]%float
  ∧ ThreatActor.probability <$> _threatActors w'
    = [Some 1; Some 0.25; Some 0.1; Some 0.05]%float.
Proof. by vm_compute. Qed.

(** The same happens to the assets, and through [_assetsWithControls] to the
    objects of [_assets]: after one draw among the assets with controls the
    probabilities of the full catalog no longer sum to 1. *)
Lemma generateAsset_rewrites_catalog :
  let w := Scenario.server (Scenario.always 0.5) in
  let w' := (SimulationsService._generateAsset false w).2 in
  foldl PrimFloat.add 0%float (JS.ToNumber ∘ Asset.probability <$> _assets w) = 1%float
  ∧ foldl PrimFloat.add 0%float (JS.ToNumber ∘ Asset.probability <$> _assets w')
    = 1.1500000000000001%float.
Proof. by vm_compute. Qed.

Lemma undefined_divided (sumProbabilities : float) :
  (JS.ToNumber None / sumProbabilities)%float = nan.
Proof.
  apply Prim2SF_inj. rewrite div_spec.
  change (Prim2SF (JS.ToNumber None)) with S754_nan.
  change (Prim2SF nan) with S754_nan.
  by destruct (Prim2SF sumProbabilities).
Qed.

Section WeightWithoutProbability.
Context {T : Type}.
Context (probability : T → option float) (set_probability : option float → T → T).
Hypothesis probability_set : ∀ p x, probability (set_probability p x) = p.

(** An item without a probability weighs 0.1 in the selection loop, before
    and after the normalisation has assigned [undefined / sumProbabilities]
    to it. *)
Lemma weight_without_probability (x : T) (sumProbabilities : float) :
  probability x = None →
  SimulationsService.weight probability x = 0.1%float
  ∧ SimulationsService.weight probability
      (set_probability (Some (JS.ToNumber (probability x) / sumProbabilities)%float) x)
    = 0.1%float.
Proof.
  intros Hnone. unfold SimulationsService.weight.
  by rewrite probability_set, Hnone, undefined_divided.
Qed.

End WeightWithoutProbability.

(** C4 (the code departs from it). An item without a probability counts
    [1 / n] in [sumProbabilities], but in the selection loop its weight is
    [probability || 0.1]: two assets without probabilities weigh 0.1 each,
    not 1/2, and the weights sum to 0.2. *)
Theorem unweighted_items_weigh_a_tenth :
  let w := Scenario.with_assets Scenario.unweighted (Scenario.always 0.5) in
  let w' := (SimulationsService._generateAsset true w).2 in
  let weights := SimulationsService.weight Asset.probability <$> _assets w' in
  Asset.probability <$> _assets w = [None; None]
  ∧ weights = [0.1; 0.1]%float
  ∧ (1 / JS.length (_assets w'))%float = 0.5%float
  ∧ foldl PrimFloat.add 0%float weights = 0.2%float.
Proof. by vm_compute. Qed.

(** C5 (the code departs from it). The selection loop has no fallback: when
    the running sum stays below the draw, the function falls off its end and
    returns [undefined]. Four assets with probabilities 0.05, 0.5, 0.05 and
    0.05 are normalised to weights whose running sum ends at
    0.9999999999999997, and the draw 0.9999999999999998 selects nothing. *)
Theorem generateAsset_returns_nothing :
  let r := 0.9999999999999998%float in
  let w := Scenario.with_assets Scenario.uneven (Scenario.always r) in
  let '(result, w') := SimulationsService._generateAsset true w in
  PrimFloat.leb 0 r = true
  ∧ PrimFloat.ltb r 1 = true
  ∧ foldl PrimFloat.add 0%float (SimulationsService.weight Asset.probability <$> _assets w')
    = 0.9999999999999997%float
  ∧ result = Normal None.
Proof. by vm_compute. Qed.

(** Nor does it take rounding: the two assets without probabilities weigh
    0.2 together, and any draw above that selects nothing. *)
Lemma generateAsset_unweighted_returns_nothing :
  let w := Scenario.with_assets Scenario.unweighted (Scenario.always 0.5) in
  (SimulationsService._generateAsset true w).1 = Normal None.
Proof. by vm_compute. Qed.

(** ** More of the services: proofs *)

Lemma bind_returns {A B} (m : M A) (k : A → M B) (w w' : world) (b : B) :
  (m ≫= k) w = (Normal b, w') →
  ∃ a w1, m w = (Normal a, w1) ∧ k a w1 = (Normal b, w').
Proof.
  rewrite bind_run. destruct (m w) as [[a|e|] w1]; [eauto | discriminate..].
Qed.

Lemma keeps_evolves {A B} (f : world → B) (m : M A) :
  keeps f m → evolves (λ w w', f w' = f w) m.
Proof. done. Qed.

Section Evolves.
Context (R : world → world → Prop) `{!PreOrder R}.

Lemma evolves_ret {A} (a : A) : evolves R (mret a).
Proof. by intros w. Qed.

Lemma evolves_throw {A} (e : exn) : evolves R (@throw A e).
Proof. by intros w. Qed.

Lemma evolves_hang {A} : evolves R (@hang A).
Proof. by intros w. Qed.

Lemma evolves_read {A} (g : world → A) : evolves R (read g).
Proof. by intros w. Qed.

Lemma evolves_write (g : world → world) : (∀ w, R w (g w)) → evolves R (write g).
Proof. intros Hg w. apply Hg. Qed.

Lemma evolves_bind {A C} (m : M A) (k : A → M C) :
  evolves R m → (∀ a, evolves R (k a)) → evolves R (m ≫= k).
Proof.
  intros Hm Hk w. rewrite bind_run. specialize (Hm w).
  destruct (m w) as [[a|e|] w1]; simpl in *; [|done..].
  by etrans; [|apply Hk].
Qed.

Lemma evolves_defined {A} (x : option A) : evolves R (defined x).
Proof. destruct x; [apply evolves_ret | apply evolves_throw]. Qed.

Lemma evolves_for_of {A} (l : list A) (body : A → M unit) :
  (∀ x, evolves R (body x)) → evolves R (for_of l body).
Proof.
  intros Hbody. induction l as [|x l IH]; simpl.
  - apply evolves_ret.
  - apply evolves_bind; [apply Hbody | by intros _].
Qed.

Lemma evolves_getById {T} (collection : world → gmap ObjectId T) (id : ObjectId) :
  evolves R (_getById collection id).
Proof.
  apply evolves_bind; [apply evolves_read|].
  intros [d|]; [apply evolves_ret | apply evolves_throw].
Qed.

End Evolves.

(** *** The three calls on one organisation *)

Lemma simulateNewTurn_run (w : world) (organisationId : ObjectId) (moneyPerTurn : float) :
  OrganisationsService.simulateNewTurn organisationId moneyPerTurn w
  = match Organisations w !! organisationId with
    | Some organisation =>
        (Normal (OrganisationsService._basicDetails (credited moneyPerTurn organisation)),
         set_Organisations <[organisationId := credited moneyPerTurn organisation]> w)
    | None => (Throw (Message "No document found matching provided ID."), w)
    end.
Proof.
  unfold OrganisationsService.simulateNewTurn, _getById.
  rewrite !bind_run. cbn [read]. by destruct (Organisations w !! organisationId).
Qed.

Lemma saveBalance_missing (w : world) (organisationId : ObjectId) (currentTurn : float) :
  Organisations w !! organisationId = None →
  OrganisationsService.saveBalance organisationId currentTurn w
  = (Throw (Message "No document found matching provided ID."), w).
Proof.
  intros Hnone. unfold OrganisationsService.saveBalance, _getById.
  rewrite !bind_run. cbn [read]. by rewrite Hnone.
Qed.

Lemma simulateEvent_missing (w : world) (organisationId eventId : ObjectId) :
  Organisations w !! organisationId = None ∨ Events w !! eventId = None →
  OrganisationsService.simulateEvent organisationId eventId w
  = (Throw (Message "No document found matching provided ID."), w).
Proof.
  intros Hnone. unfold OrganisationsService.simulateEvent, EventsService.get, _getById.
  rewrite !bind_run. cbn [read].
  destruct (Organisations w !! organisationId) as [organisation|]; [|done].
  rewrite ret_run, !bind_run. cbn [read].
  destruct Hnone as [|Hnone]; [done|]. by rewrite Hnone.
Qed.


(** X1. An event that is missing, or an organisation that is missing, stops
    [simulateEvent] with the base service's error before anything is
    written. *)
Theorem simulateEvent_missing_document (w : world) (organisationId eventId : ObjectId) :
  Organisations w !! organisationId = None ∨ Events w !! eventId = None →
  OrganisationsService.simulateEvent organisationId eventId w
  = (Throw (Message "No document found matching provided ID."), w).
Proof. apply simulateEvent_missing. Qed.

Lemma simulateEvent_missing_document_witness :
  (Organisations Scenario.office !! 10%N = None ∨ Events Scenario.office !! 7%N = None)
  ∧ OrganisationsService.simulateEvent 10 7 Scenario.office
    = (Throw (Message "No document found matching provided ID."), Scenario.office).
Proof.
  assert (H : Organisations Scenario.office !! 10%N = None
              ∨ Events Scenario.office !! 7%N = None) by (right; reflexivity).
  split; [exact H|]. exact (simulateEvent_missing_document _ _ _ H).
Defined.





(** X4. The guard of [saveBalance] when it works. For an organisation whose
    balance is a truthy number and whose history has one entry per turn
    already played ([currentTurn - 1] is the index after the last entry), the
    first call appends the balance and changes nothing else; a second call
    for the same turn raises "Past balance already set!" and writes
    nothing. *)
Theorem saveBalance_write_once (w : world) (organisationId : ObjectId) (currentTurn : float)
    (organisation : Organisation.t) :
  Organisations w !! organisationId = Some organisation →
  JS.index (currentTurn - 1)%float = Some (length (Organisation.pastBalances organisation)) →
  JS.ToBoolean (Organisation.balance organisation) = true →
  let w1 := set_Organisations <[organisationId := snapshot organisation]> w in
  OrganisationsService.saveBalance organisationId currentTurn w = (Normal (), w1)
  ∧ OrganisationsService.saveBalance organisationId currentTurn w1
    = (Throw (HttpError 500 "Past balance already set!"), w1).
Proof.
  intros Horg Hindex Htruthy w1. split.
  - rewrite (saveBalance_run _ _ _ _ Horg). unfold JS.get. rewrite Hindex.
    by rewrite lookup_ge_None_2.
  - rewrite (saveBalance_run w1 _ _ (snapshot organisation)) by apply lookup_insert_eq.
    unfold JS.get. rewrite Hindex. cbn.
    rewrite lookup_app_r, Nat.sub_diag by done. cbn. by rewrite Htruthy.
Qed.

Lemma saveBalance_write_once_witness :
  Organisations Scenario.office !! 10%N = Some Scenario.acme
  ∧ JS.index (1 - 1)%float = Some (length (Organisation.pastBalances Scenario.acme))
  ∧ JS.ToBoolean (Organisation.balance Scenario.acme) = true
  ∧ OrganisationsService.saveBalance 10 1
      (set_Organisations <[10%N := snapshot Scenario.acme]> Scenario.office)
    = (Throw (HttpError 500 "Past balance already set!"),
       set_Organisations <[10%N := snapshot Scenario.acme]> Scenario.office).
Proof.
  split; [reflexivity|]. split; [reflexivity|]. split; [reflexivity|].
  apply (saveBalance_write_once Scenario.office 10 1 Scenario.acme); reflexivity.
Defined.


(** *** Requests on a game *)

Lemma simulateTurn_unfold (w : world) (gameId organisationId : ObjectId) (game : Game.t) :
  Games w !! gameId = Some game →
  GamesService.simulateTurn gameId organisationId w
  = if decide (Game.state game = Ended)
    then (Throw (HttpError 403 "Game is already finished"), w)
    else
      let waiting :=
        Game.set_readyOrganisations (Game.readyOrganisations game ++ [organisationId]) game in
      if decide (Game.gameType game = Competitive) then
        if decide (length (Game.readyOrganisations waiting) < length (populated w game))
        then (Normal waiting, set_Games <[gameId := waiting]> w)
        else GamesService.run_turn gameId waiting w
      else GamesService.run_turn gameId game w.
Proof.
  intros Hgame. unfold GamesService.simulateTurn, GameDocuments.findById_populate.
  rewrite bind_run. cbn [read]. rewrite Hgame. cbn.
  rewrite bind_run, ret_run. by repeat case_decide.
Qed.

Lemma simulateTurn_without_game (w : world) (gameId organisationId : ObjectId) :
  Games w !! gameId = None →
  GamesService.simulateTurn gameId organisationId w = (Throw TypeError, w).
Proof.
  intros Hnone. unfold GamesService.simulateTurn, GameDocuments.findById_populate.
  rewrite bind_run. cbn [read]. by rewrite Hnone.
Qed.

(** X6. A simulate-turn request for a game that does not exist fails with a
    [TypeError] (the state of [null] is read) and writes nothing. *)
Theorem simulateTurn_unknown_game (w : world) (gameId organisationId : ObjectId) :
  Games w !! gameId = None →
  GamesService.simulateTurn gameId organisationId w = (Throw TypeError, w).
Proof. apply simulateTurn_without_game. Qed.

Lemma simulateTurn_unknown_game_witness :
  Games Scenario.office !! 1%N = None
  ∧ GamesService.simulateTurn 1 10 Scenario.office = (Throw TypeError, Scenario.office).
Proof. split; [reflexivity|]. by apply simulateTurn_unknown_game. Defined.

(** X7. Whatever a simulate-turn request does and however it completes, the
    only game document it writes is that of its game, and in it only
    [readyOrganisations], [state] and [currentTurn]: the organisations of the
    game, [maxTurns], the bounds on events and costs and every other game stay
    as they were. *)
Theorem simulateTurn_writes_its_game (w : world) (gameId organisationId : ObjectId)
    (game : Game.t) :
  Games w !! gameId = Some game →
  let w' := (GamesService.simulateTurn gameId organisationId w).2 in
  ∃ ready state turn,
    Games w'
    = <[gameId := Game.set_readyOrganisations ready
                    (Game.set_state state (Game.set_currentTurn turn game))]> (Games w).
Proof.
  intros Hgame w'. subst w'. rewrite (simulateTurn_unfold _ _ _ _ Hgame).
  assert (Hrun : ∀ ready,
    ∃ ready' state turn,
      Games (GamesService.run_turn gameId (Game.set_readyOrganisations ready game) w).2
      = <[gameId := Game.set_readyOrganisations ready'
                      (Game.set_state state (Game.set_currentTurn turn game))]> (Games w)).
  { intros ready.
    pose proof (run_turn_Games w gameId (Game.set_readyOrganisations ready game)) as Hturn.
    destruct (GamesService.run_turn gameId (Game.set_readyOrganisations ready game) w)
      as [[result| |] w']; cbn [snd].
    - destruct Hturn as [-> ->]. unfold GamesService.advance. cbn.
      case_match; by eexists [], _, _.
    - rewrite Hturn. by exists [], Simulating, (Game.currentTurn game).
    - rewrite Hturn. by exists [], Simulating, (Game.currentTurn game). }
  assert (Hid : game = Game.set_readyOrganisations (Game.readyOrganisations game) game)
    by by destruct game.
  cbv zeta. repeat case_decide; cbn [snd].
  - exists (Game.readyOrganisations game), (Game.state game), (Game.currentTurn game).
    symmetry. apply insert_id. rewrite Hgame. f_equal. clear. by destruct game.
  - exists (Game.readyOrganisations game ++ [organisationId]), (Game.state game),
      (Game.currentTurn game). cbn. by f_equal.
  - apply Hrun.
  - destruct (Hrun (Game.readyOrganisations game)) as (ready & state & turn & Hgames).
    rewrite <-Hid in Hgames. by exists ready, state, turn.
Qed.

Lemma simulateTurn_writes_its_game_witness :
  let w := Scenario.solo_world 4 in
  let w' := (GamesService.simulateTurn 1 10 w).2 in
  Games w !! 1%N = Some (Scenario.solo 4)
  ∧ Game.organisations <$> Games w' !! 1%N = Some [10%N].
Proof.
  intros w w'. split; [reflexivity|].
  destruct (simulateTurn_writes_its_game w 1 10 (Scenario.solo 4) eq_refl)
    as (ready & state & turn & Hgames).
  fold w' in Hgames. by rewrite Hgames, lookup_insert_eq.
Defined.

(** X8. When the simulation of a turn fails after the request has started it
    (a thrown error, or a loop that does not end), the game is left in state
    [Simulating] with an empty [readyOrganisations] and its turn counter not
    advanced. *)
Theorem failed_turn_leaves_Simulating (w : world) (gameId organisationId : ObjectId)
    (game : Game.t) :
  Games w !! gameId = Some game →
  Game.state game ≠ Ended →
  ¬ waits w game →
  let '(result, w') := GamesService.simulateTurn gameId organisationId w in
  (∀ returned, result ≠ Normal returned) →
  Games w' !! gameId = Some (simulating game)
  ∧ Game.state (simulating game) = Simulating
  ∧ Game.currentTurn (simulating game) = Game.currentTurn game.
Proof.
  intros Hgame Hstate Hwaits.
  rewrite (simulateTurn_runs _ _ _ _ Hgame Hstate Hwaits).
  match goal with |- context [GamesService.run_turn _ ?g _] =>
    pose proof (run_turn_Games w gameId g) as Hturn;
    replace (simulating g) with (simulating game) in Hturn by (by case_decide);
    destruct (GamesService.run_turn gameId g w) as [[result| |] w']
  end.
  - intros Hfailed. by destruct (Hfailed result).
  - intros _. by rewrite Hturn, lookup_insert_eq.
  - intros _. by rewrite Hturn, lookup_insert_eq.
Qed.

Lemma failed_turn_leaves_Simulating_witness :
  let w := Cases.replayed in
  let '(result, w') := GamesService.simulateTurn 1 10 w in
  Games w !! 1%N = Some (Scenario.solo 1)
  ∧ result = Throw (HttpError 500 "Past balance already set!")
  ∧ Game.state <$> Games w' !! 1%N = Some Simulating.
Proof.
  intros w.
  pose proof (failed_turn_leaves_Simulating w 1 10 (Scenario.solo 1) eq_refl
                ltac:(discriminate)
                (single_player_never_waits w (Scenario.solo 1) eq_refl)) as Hfailed.
  assert (Hresult : (GamesService.simulateTurn 1 10 w).1
                    = Throw (HttpError 500 "Past balance already set!"))
    by (vm_compute; reflexivity).
  destruct (GamesService.simulateTurn 1 10 w) as [result w']. cbn in Hresult. subst result.
  split; [reflexivity|]. split; [reflexivity|].
  destruct Hfailed as (Hstored & _); [discriminate|].
  exact (f_equal (fmap Game.state) Hstored).
Defined.

(** X9. [Ended] is final. Once a game has ended, no sequence of simulate-turn
    requests, from whichever organisations, changes anything. *)
Theorem ended_game_stays_ended (w : world) (gameId : ObjectId) (game : Game.t)
    (requesters : list ObjectId) :
  Games w !! gameId = Some game →
  Game.state game = Ended →
  after_requests gameId requesters w = w.
Proof.
  intros Hgame Hended. unfold after_requests.
  induction requesters as [|organisationId requesters IH]; [done|]. cbn [foldl].
  rewrite (simulateTurn_unfold _ _ _ _ Hgame), decide_True by done. exact IH.
Qed.

Lemma ended_game_stays_ended_witness :
  Games Scenario.finished_world !! 1%N = Some Scenario.finished
  ∧ Game.state Scenario.finished = Ended
  ∧ after_requests 1 [10; 11; 10]%N Scenario.finished_world = Scenario.finished_world.
Proof.
  split; [reflexivity|]. split; [reflexivity|].
  by apply (ended_game_stays_ended _ _ Scenario.finished).
Defined.



(** *** What a turn leaves alone *)

#[local] Instance turn_frame_preorder : PreOrder turn_frame.
Proof.
  split.
  - intros w. by repeat split.
  - intros w1 w2 w3 (HE1 & HO1 & HS1 & HC1 & HT1 & HA1 & HR1 & Hn1)
      (HE2 & HO2 & HS2 & HC2 & HT2 & HA2 & HR2 & Hn2).
    repeat split; [by etrans | congruence.. | lia].
Qed.

#[local] Instance others_untouched_preorder (these : list ObjectId) :
  PreOrder (others_untouched these).
Proof.
  split.
  - by intros w id.
  - intros w1 w2 w3 H1 H2 id Hid. by rewrite H2, H1.
Qed.

(** A relation between worlds that every write of a request respects is
    respected by the request: the generation of events draws random numbers,
    overwrites the probability of catalog objects and stores new events; the
    calls on organisations overwrite organisations that exist, here those that
    satisfy [P]; the games service saves game documents. *)
Section Writes.
Context (R : world → world → Prop) `{!PreOrder R} (P : ObjectId → Prop).
Hypothesis R_random : ∀ w, R w (set_random_calls (S (random_calls w)) w).
Hypothesis R_actor : ∀ w ref x p,
  _threatActors w !! ref = Some x →
  R w (set_threatActors <[ref := ThreatActor.set_probability p x]> w).
Hypothesis R_asset : ∀ w ref x p,
  _assets w !! ref = Some x →
  R w (set_assets <[ref := Asset.set_probability p x]> w).
Hypothesis R_event : ∀ w event,
  Events w !! Event.id event = None →
  R w (set_Events <[Event.id event := event]> w).

Lemma evolves_random : evolves R Math_random.
Proof. intros w. apply R_random. Qed.

Lemma evolves_generate {T} (catalog : world → list T)
    (set_catalog : (list T → list T) → world → world)
    (probability : T → option float) (set_probability : option float → T → T)
    (refs : list nat) :
  (∀ w ref x p, catalog w !! ref = Some x →
                R w (set_catalog <[ref := set_probability p x]> w)) →
  evolves R (SimulationsService.generate catalog set_catalog probability set_probability refs).
Proof.
  intros Hstep.
  assert (Hobject : ∀ ref, evolves R (SimulationsService.object catalog ref)).
  { intros ref.
    apply evolves_bind; [done | by apply evolves_read | intros; by apply evolves_defined]. }
  assert (Hsum : ∀ n l s,
    evolves R (SimulationsService.sum_probabilities catalog probability n l s)).
  { intros n l. induction l as [|ref l IH]; intros s; simpl; [by apply evolves_ret|].
    apply evolves_bind; [done | apply Hobject | intros x; apply IH]. }
  assert (Hselect : ∀ rand l s,
    evolves R (SimulationsService.select catalog probability rand l s)).
  { intros rand l. induction l as [|ref l IH]; intros s; simpl; [by apply evolves_ret|].
    apply evolves_bind; [done | apply Hobject | intros x].
    case_match; [by apply evolves_ret | apply IH]. }
  unfold SimulationsService.generate.
  apply evolves_bind; [done | apply evolves_random | intros rand].
  apply evolves_bind; [done | apply Hsum | intros s].
  apply evolves_bind; [done | | intros _; apply Hselect].
  case_match; [|by apply evolves_ret].
  unfold SimulationsService.normalise. apply evolves_for_of; [done|]. intros ref w.
  unfold SimulationsService.object. rewrite !bind_run. cbn [read].
  destruct (catalog w !! ref) as [x|] eqn:Hx; cbn; [by apply Hstep | done].
Qed.

Lemma evolves_generateSecurityAreas (source : string) :
  evolves R (SimulationsService._generateSecurityAreas source).
Proof.
  assert (Hpick : ∀ n all picked,
    evolves R (SimulationsService.pick_securityAreas n all picked)).
  { induction n as [|n IH]; intros all picked; simpl; [by apply evolves_ret|].
    apply evolves_bind; [done | apply evolves_random | intros r; apply IH]. }
  unfold SimulationsService._generateSecurityAreas,
    SecurityAreasService.getAllBySource, SecurityAreasService._getAllBySource.
  apply evolves_bind; [done | by apply evolves_read | intros all].
  apply evolves_bind; [done | apply evolves_random | intros r].
  case_match; [|by apply evolves_hang].
  apply evolves_bind; [done | apply Hpick | intros; by apply evolves_ret].
Qed.

Lemma evolves_create game turn cost threatActor asset securityAreas :
  evolves R (EventsService.create game turn cost threatActor asset securityAreas).
Proof.
  intros w. unfold EventsService.create, EventsService._basicDetails.
  rewrite !bind_run. cbn [read write]. rewrite bind_run. cbn [write]. rewrite ret_run.
  cbn [snd].
  pose proof (R_event w (Event.mk (fresh (dom (Events w))) game turn cost asset threatActor
                           securityAreas)) as Hevent.
  cbn [Event.id] in Hevent. apply Hevent, not_elem_of_dom, is_fresh.
Qed.

Lemma evolves_map_id securityAreas : evolves R (SimulationsService.map_id securityAreas).
Proof.
  induction securityAreas as [|a l IH]; simpl; [by apply evolves_ret|].
  apply evolves_bind; [done | by apply evolves_defined | intros x].
  apply evolves_bind; [done | apply IH | intros; by apply evolves_ret].
Qed.

Lemma evolves_generateThreatActor gameProgress :
  evolves R (SimulationsService._generateThreatActor gameProgress).
Proof.
  unfold SimulationsService._generateThreatActor.
  apply evolves_bind; [done | by apply evolves_read | intros all].
  by apply evolves_generate.
Qed.

Lemma evolves_generateAsset allowUnavoidableIncidents :
  evolves R (SimulationsService._generateAsset allowUnavoidableIncidents).
Proof.
  unfold SimulationsService._generateAsset.
  apply evolves_bind; [done | by apply evolves_read | intros refs].
  by apply evolves_generate.
Qed.

Lemma evolves_generateCost min max costModifier :
  evolves R (SimulationsService._generateCost min max costModifier).
Proof.
  unfold SimulationsService._generateCost.
  apply evolves_bind; [done | apply evolves_random | intros; by apply evolves_ret].
Qed.

Lemma evolves_generate_events n gameId game events :
  evolves R (SimulationsService.generate_events n gameId game events).
Proof.
  revert events. induction n as [|n IH]; intros events; simpl; [by apply evolves_ret|].
  apply evolves_bind; [done | apply evolves_generateThreatActor | intros threatActor].
  apply evolves_bind; [done | apply evolves_generateAsset | intros asset].
  apply evolves_bind; [done | apply evolves_generateSecurityAreas | intros areas].
  apply evolves_bind; [done | by apply evolves_defined | intros threatActor'].
  apply evolves_bind; [done | apply evolves_generateCost | intros cost].
  apply evolves_bind; [done | by apply evolves_defined | intros asset'].
  apply evolves_bind; [done | apply evolves_map_id | intros ids].
  apply evolves_bind; [done | apply evolves_create | intros event; apply IH].
Qed.

Lemma evolves_simulateEventsForTurn gameId :
  evolves R (SimulationsService._simulateEventsForTurn gameId).
Proof.
  unfold SimulationsService._simulateEventsForTurn, GameDocuments.get.
  apply evolves_bind; [done| |intros game].
  { apply evolves_bind; [done | by apply evolves_getById | intros; by apply evolves_ret]. }
  apply evolves_bind; [done | apply evolves_random | intros r].
  case_match; [apply evolves_generate_events | by apply evolves_hang].
Qed.

Hypothesis R_organisation : ∀ w id organisation organisation',
  P id → Organisations w !! id = Some organisation →
  R w (set_Organisations <[id := organisation']> w).
Hypothesis R_game : ∀ w id game, R w (set_Games <[id := game]> w).

Lemma evolves_saveBalance id currentTurn :
  P id → evolves R (OrganisationsService.saveBalance id currentTurn).
Proof.
  intros HP w. destruct (Organisations w !! id) as [organisation|] eqn:Horg.
  - rewrite (saveBalance_run _ _ _ _ Horg). case_match; [done|]. by eapply R_organisation.
  - by rewrite saveBalance_missing.
Qed.

Lemma evolves_simulateEvent id eventId :
  P id → evolves R (OrganisationsService.simulateEvent id eventId).
Proof.
  intros HP w.
  destruct (Organisations w !! id) as [organisation|] eqn:Horg;
    [destruct (Events w !! eventId) as [event|] eqn:Hevent|].
  - rewrite (simulateEvent_run _ _ _ _ _ Horg Hevent). by eapply R_organisation.
  - rewrite simulateEvent_missing; [done | by right].
  - rewrite simulateEvent_missing; [done | by left].
Qed.

Lemma evolves_simulateNewTurn id moneyPerTurn :
  P id → evolves R (OrganisationsService.simulateNewTurn id moneyPerTurn).
Proof.
  intros HP w. rewrite simulateNewTurn_run.
  destruct (Organisations w !! id) as [organisation|] eqn:Horg; [|done].
  by eapply R_organisation.
Qed.

Lemma evolves_for_of_Forall {A} (Q : A → Prop) (l : list A) (body : A → M unit) :
  (∀ x, Q x → evolves R (body x)) → Forall Q l → evolves R (for_of l body).
Proof.
  intros Hbody. induction 1 as [|x l Hx _ IH]; simpl.
  - by apply evolves_ret.
  - apply evolves_bind; [done | by apply Hbody | by intros _].
Qed.

Lemma evolves_simulateTurn (w : world) (gameId : ObjectId) :
  (∀ game, Games w !! gameId = Some game → Forall P (Game.organisations game)) →
  R w (SimulationsService.simulateTurn gameId w).2.
Proof.
  intros HP. unfold SimulationsService.simulateTurn. rewrite bind_run.
  pose proof (evolves_simulateEventsForTurn gameId w) as Hevents.
  pose proof (keeps_Games_simulateEventsForTurn gameId w) as Hgames.
  destruct (SimulationsService._simulateEventsForTurn gameId w) as [[events|e|] w1];
    cbn [snd] in *; [|done..].
  etrans; [exact Hevents|].
  unfold GameDocuments.findById_populate. rewrite bind_run. cbn [read].
  destruct (Games w1 !! gameId) as [game|] eqn:Hgame; cbn; [|done].
  rewrite bind_run, ret_run.
  assert (Hall : Forall P (filter (λ id, is_Some (Organisations w1 !! id))
                             (Game.organisations game))).
  { apply Forall_forall. intros id [_ Hid]%list_elem_of_filter. revert id Hid.
    apply Forall_forall, HP. by rewrite <-Hgames. }
  revert Hall. generalize (filter (λ id, is_Some (Organisations w1 !! id))
                             (Game.organisations game)).
  intros organisations Hall.
  apply evolves_bind; [done| |intros _].
  - apply (evolves_for_of_Forall P); [|done]. intros organisation Horg.
    apply evolves_bind; [done | by apply evolves_saveBalance | intros _].
    apply evolves_for_of; [done|]. intros event.
    apply evolves_bind; [done | by apply evolves_simulateEvent | intros; by apply evolves_ret].
  - apply (evolves_for_of_Forall P); [|done]. intros organisation Horg.
    apply evolves_bind; [done | by apply evolves_simulateNewTurn | intros; by apply evolves_ret].
Qed.

Lemma evolves_run_turn (w : world) (gameId : ObjectId) (game : Game.t) :
  Forall P (Game.organisations game) →
  R w (GamesService.run_turn gameId game w).2.
Proof.
  intros HP. unfold GamesService.run_turn, GamesService.save.
  rewrite bind_run. cbn [write].
  set (w1 := set_Games _ w).
  assert (Hw1 : R w w1) by apply R_game.
  assert (Hgame : ∀ g, Games w1 !! gameId = Some g → Forall P (Game.organisations g)).
  { intros g. subst w1. unfold set_Games; cbn [Games]. rewrite lookup_insert_eq.
    by intros [= <-]. }
  clearbody w1. etrans; [exact Hw1|]. rewrite bind_run.
  pose proof (evolves_simulateTurn w1 gameId Hgame) as Hturn.
  destruct (SimulationsService.simulateTurn gameId w1) as [[[]|e|] w2];
    cbn [snd] in *; [|done..].
  etrans; [exact Hturn|].
  apply evolves_bind; [done | by apply evolves_read | intros found].
  apply evolves_bind; [done | by apply evolves_defined | intros [updatedGame organisations]].
  apply evolves_bind; [done | | intros; by apply evolves_ret].
  intros w3. apply R_game.
Qed.

Lemma evolves_request (w : world) (gameId organisationId : ObjectId) :
  (∀ game, Games w !! gameId = Some game → Forall P (Game.organisations game)) →
  R w (GamesService.simulateTurn gameId organisationId w).2.
Proof.
  intros HP. destruct (Games w !! gameId) as [game|] eqn:Hgame.
  - rewrite (simulateTurn_unfold _ _ _ _ Hgame). cbv zeta.
    specialize (HP game eq_refl).
    repeat case_decide; cbn [snd]; [done | apply R_game | by apply evolves_run_turn..].
  - by rewrite simulateTurn_without_game.
Qed.

End Writes.

(** The instances: what the frame of a turn allows, and what leaves the
    organisations outside a list alone. *)
Lemma turn_frame_random (w : world) : turn_frame w (set_random_calls (S (random_calls w)) w).
Proof. unfold turn_frame. cbn. repeat split; try done. lia. Qed.

Lemma turn_frame_actor (w : world) (ref : nat) (x : ThreatActor.t) (p : option float) :
  _threatActors w !! ref = Some x →
  turn_frame w (set_threatActors <[ref := ThreatActor.set_probability p x]> w).
Proof.
  intros Hx. unfold turn_frame. cbn. repeat split; try done.
  rewrite list_fmap_insert. apply list_insert_id. by rewrite list_lookup_fmap, Hx.
Qed.

Lemma turn_frame_asset (w : world) (ref : nat) (x : Asset.t) (p : option float) :
  _assets w !! ref = Some x →
  turn_frame w (set_assets <[ref := Asset.set_probability p x]> w).
Proof.
  intros Hx. unfold turn_frame. cbn. repeat split; try done.
  rewrite list_fmap_insert. apply list_insert_id. by rewrite list_lookup_fmap, Hx.
Qed.

Lemma turn_frame_event (w : world) (event : Event.t) :
  Events w !! Event.id event = None →
  turn_frame w (set_Events <[Event.id event := event]> w).
Proof.
  intros Hnew. unfold turn_frame. cbn. repeat split; try done. by apply insert_subseteq.
Qed.

Lemma turn_frame_organisation (w : world) (id : ObjectId)
    (organisation organisation' : Organisation.t) :
  Organisations w !! id = Some organisation →
  turn_frame w (set_Organisations <[id := organisation']> w).
Proof.
  intros Horg. unfold turn_frame. cbn. repeat split; try done.
  apply dom_insert_lookup_L. by rewrite Horg.
Qed.

Lemma turn_frame_game (w : world) (id : ObjectId) (game : Game.t) :
  turn_frame w (set_Games <[id := game]> w).
Proof. unfold turn_frame. cbn. by repeat split. Qed.

(** X11. What no simulate-turn request does, whatever the game, the requester
    and the random numbers, and however the request completes: it removes or
    changes no stored event, creates or deletes no organisation, leaves the
    security areas and the list of assets with controls as they are, keeps
    the threat actors and assets of the cached catalogs in place with their
    slug, location, [includeFrom] and [costModifier] (only probabilities may
    be overwritten), and only draws from the random source. *)
Theorem request_frame (w : world) (gameId organisationId : ObjectId) :
  turn_frame w (GamesService.simulateTurn gameId organisationId w).2.
Proof.
  apply (evolves_request turn_frame (λ _, True)).
  - apply turn_frame_random.
  - apply turn_frame_actor.
  - apply turn_frame_asset.
  - apply turn_frame_event.
  - intros ???? _. apply turn_frame_organisation.
  - apply turn_frame_game.
  - intros game _. by apply Forall_forall.
Qed.

(** X12. A simulate-turn request touches no organisation outside its game:
    every organisation that the game does not list is, after the request,
    exactly as it was before, however the request completes. *)
Theorem request_touches_only_its_organisations (w : world)
    (gameId organisationId : ObjectId) (game : Game.t) :
  Games w !! gameId = Some game →
  others_untouched (Game.organisations game) w
    (GamesService.simulateTurn gameId organisationId w).2.
Proof.
  intros Hgame.
  apply (evolves_request (others_untouched (Game.organisations game))
           (λ id, id ∈ Game.organisations game)); try by intros.
  - intros w0 id organisation organisation' Hin _ other Hother. cbn.
    apply lookup_insert_ne. by intros ->.
  - intros game' Hgame'. apply Forall_forall. congruence.
Qed.

Lemma request_touches_only_its_organisations_witness :
  let w := Cases.district in
  Games w !! 1%N = Some (Scenario.solo 1)
  ∧ Organisations (GamesService.simulateTurn 1 10 w).2 !! 12%N = Some Cases.fortress.
Proof.
  intros w. split; [reflexivity|].
  pose proof (request_touches_only_its_organisations w 1 10 (Scenario.solo 1) eq_refl 12%N)
    as Huntouched.
  etrans; [apply Huntouched | reflexivity].
  cbn. by rewrite list_elem_of_singleton.
Defined.

(** *** What the generation of an event picks *)

Lemma filter_refs_spec {T} (p : T → bool) (l : list T) (from ref : nat) :
  ref ∈ SimulationsService.filter_refs p l from
  ↔ ∃ x, from ≤ ref ∧ l !! (ref - from) = Some x ∧ p x = true.
Proof.
  revert from. induction l as [|y l IH]; intros from; simpl.
  - split; [by intros ?%elem_of_nil | by intros (x & _ & ? & _)].
  - assert (Hrest : ref ∈ SimulationsService.filter_refs p l (S from)
                    ↔ ∃ x, from < ref ∧ (y :: l) !! (ref - from) = Some x ∧ p x = true).
    { rewrite IH. split; intros (x & Hle & Hx & Hp); exists x; (split; [lia|]).
      - split; [|done]. by replace (ref - from) with (S (ref - S from)) by lia.
      - split; [|done]. by replace (ref - from) with (S (ref - S from)) in Hx by lia. }
    destruct (p y) eqn:Hy.
    + rewrite elem_of_cons, Hrest. split.
      * intros [->|(x & Hlt & Hx & Hp)]; [|exists x; split; [lia|done]].
        exists y. by rewrite Nat.sub_diag.
      * intros (x & Hle & Hx & Hp).
        destruct (decide (ref = from)) as [->|Hne]; [by left|].
        right. exists x. split; [lia|done].
    + rewrite Hrest. split; intros (x & Hle & Hx & Hp); exists x.
      * split; [lia|done].
      * destruct (decide (ref = from)) as [->|Hne]; [|split; [lia|done]].
        rewrite Nat.sub_diag in Hx. cbn in Hx. congruence.
Qed.

Section Picks.
Context {T I : Type}.
Context (catalog : world → list T) (set_catalog : (list T → list T) → world → world).
Context (probability : T → option float) (set_probability : option float → T → T).
Context (identity : T → I).
Hypothesis catalog_set : ∀ f w, catalog (set_catalog f w) = f (catalog w).
Hypothesis catalog_random : ∀ n w, catalog (set_random_calls n w) = catalog w.
Hypothesis identity_set : ∀ p x, identity (set_probability p x) = identity x.

Lemma object_run (ref : nat) (w : world) :
  SimulationsService.object catalog ref w
  = match catalog w !! ref with
    | Some x => (Normal x, w)
    | None => (Throw TypeError, w)
    end.
Proof.
  unfold SimulationsService.object. rewrite bind_run. cbn [read].
  by destruct (catalog w !! ref).
Qed.

Lemma sum_probabilities_world n refs s w :
  (SimulationsService.sum_probabilities catalog probability n refs s w).2 = w.
Proof.
  revert s. induction refs as [|ref refs IH]; intros s; simpl; [done|].
  rewrite bind_run, object_run. destruct (catalog w !! ref); [apply IH | done].
Qed.

Lemma normalise_identity s refs w :
  identity <$>
    catalog (SimulationsService.normalise catalog set_catalog probability set_probability
               s refs w).2
  = identity <$> catalog w.
Proof.
  unfold SimulationsService.normalise.
  revert w. induction refs as [|ref refs IH]; intros w; simpl; [done|].
  rewrite !bind_run, object_run.
  destruct (catalog w !! ref) as [x|] eqn:Hx; [|done]. cbn [write].
  rewrite IH, catalog_set, list_fmap_insert, identity_set.
  apply list_insert_id. by rewrite list_lookup_fmap, Hx.
Qed.

Lemma select_returns rand refs s w x w' :
  SimulationsService.select catalog probability rand refs s w = (Normal (Some x), w') →
  w' = w ∧ ∃ ref, ref ∈ refs ∧ catalog w !! ref = Some x.
Proof.
  revert s. induction refs as [|ref refs IH]; intros s; simpl; [done|].
  rewrite bind_run, object_run.
  destruct (catalog w !! ref) as [y|] eqn:Hy; [|done].
  case_match.
  - intros [= <- <-]. split; [done|]. exists ref. split; [by left|done].
  - intros (-> & ref' & Hin & Hx)%IH. split; [done|]. exists ref'. split; [by right|done].
Qed.

(** The object that the weighted selection returns is one of the working
    array: it sits in the catalog behind one of the references, where an
    object of the same identity sat before the call. *)
Lemma generate_returns refs w x w' :
  SimulationsService.generate catalog set_catalog probability set_probability refs w
  = (Normal (Some x), w') →
  ∃ ref original,
    ref ∈ refs ∧ catalog w !! ref = Some original ∧ identity x = identity original
    ∧ catalog w' !! ref = Some x.
Proof.
  unfold SimulationsService.generate. rewrite bind_run.
  unfold Math_random at 1. cbv iota beta.
  set (w1 := set_random_calls _ w).
  assert (H1 : catalog w1 = catalog w) by apply catalog_random. clearbody w1.
  rewrite bind_run.
  pose proof (sum_probabilities_world (JS.length refs) refs 0 w1) as Hsum.
  destruct (SimulationsService.sum_probabilities _ _ _ _ _ w1) as [[s|e|] w2];
    cbn [snd] in Hsum; [subst w2|done..].
  rewrite bind_run.
  set (step := if JS.strict_neq s 1 then _ else _).
  assert (Hstep : identity <$> catalog (step w1).2 = identity <$> catalog w1).
  { subst step. case_match; [apply normalise_identity | done]. }
  destruct (step w1) as [[[]|e|] w3]; cbn [snd] in Hstep; [|done..].
  intros (-> & ref & Hin & Hx)%select_returns.
  assert (Hid : (identity <$> catalog w1) !! ref = Some (identity x))
    by by rewrite <-Hstep, list_lookup_fmap, Hx.
  rewrite H1 in Hid. apply list_lookup_fmap_Some in Hid as (original & Horiginal & Hsame).
  by exists ref, original.
Qed.

End Picks.

(** X13. A threat actor is never drawn before its time. The actor that
    [_generateThreatActor] returns is one of the cached catalog, and its
    [includeFrom] is absent, falsy, or at most the progress of the game. *)
Theorem generateThreatActor_respects_includeFrom (w w' : world) (gameProgress : float)
    (threatActor : ThreatActor.t) :
  SimulationsService._generateThreatActor gameProgress w = (Normal (Some threatActor), w') →
  (∃ original, original ∈ _threatActors w
               ∧ actor_identity threatActor = actor_identity original)
  ∧ (ThreatActor.includeFrom threatActor = None
     ∨ ∃ includeFrom, ThreatActor.includeFrom threatActor = Some includeFrom
         ∧ (JS.ToBoolean includeFrom = false
            ∨ PrimFloat.leb includeFrom gameProgress = true)).
Proof.
  unfold SimulationsService._generateThreatActor. rewrite bind_run. cbn [read].
  intros (ref & original & Hin & Horiginal & Hsame & _)%(generate_returns _ _ _ _ actor_identity);
    [|done..].
  apply filter_refs_spec in Hin as (x & _ & Hx & Hp).
  rewrite Nat.sub_0_r, Horiginal in Hx. injection Hx as <-.
  split; [exists original; split; [by eapply list_elem_of_lookup_2 | done]|].
  assert (Hfrom : ThreatActor.includeFrom threatActor = ThreatActor.includeFrom original)
    by by injection Hsame.
  rewrite Hfrom. destruct (ThreatActor.includeFrom original) as [includeFrom|]; [|by left].
  right. exists includeFrom. split; [done|].
  apply orb_true_iff in Hp as [Hfalsy|Hle]; [left | by right].
  by apply negb_true_iff in Hfalsy.
Qed.

Lemma generateThreatActor_respects_includeFrom_witness :
  let w := Scenario.server (Scenario.always 0.5) in
  ∃ threatActor w',
    SimulationsService._generateThreatActor 0.2 w = (Normal (Some threatActor), w')
    ∧ ThreatActor.slug threatActor = "script-kiddie"
    ∧ ThreatActor.includeFrom threatActor = None.
Proof.
  intros w.
  assert (Hrun : ∃ threatActor w',
    SimulationsService._generateThreatActor 0.2 w = (Normal (Some threatActor), w')
    ∧ ThreatActor.slug threatActor = "script-kiddie").
  { eexists _, _. split; [vm_compute; reflexivity | reflexivity]. }
  destruct Hrun as (threatActor & w' & Hrun & Hslug).
  exists threatActor, w'. split; [exact Hrun|]. split; [exact Hslug|].
  destruct (generateThreatActor_respects_includeFrom w w' 0.2 threatActor Hrun)
    as [(original & Hin & Hsame) Hfrom].
  assert (Hsk : ThreatActor.includeFrom threatActor = None).
  { injection Hsame as Hs Hi _. rewrite Hi. rewrite Hslug in Hs.
    cbn in Hin. repeat (apply elem_of_cons in Hin as [->|Hin]; [try done|]).
    by apply elem_of_nil in Hin. }
  exact Hsk.
Defined.

(** X14. With unavoidable incidents switched off, the asset that
    [_generateAsset] returns is one of those the cached list of assets with
    controls refers to. *)
Theorem generateAsset_has_controls (w w' : world) (asset : Asset.t) :
  SimulationsService._generateAsset false w = (Normal (Some asset), w') →
  ∃ ref original,
    ref ∈ _assetsWithControls w
    ∧ _assets w !! ref = Some original
    ∧ asset_identity asset = asset_identity original.
Proof.
  unfold SimulationsService._generateAsset. rewrite bind_run. cbn [read].
  intros (ref & original & Hin & Horiginal & Hsame & _)%(generate_returns _ _ _ _ asset_identity);
    [|done..].
  by exists ref, original.
Qed.

Lemma generateAsset_has_controls_witness :
  let w := Scenario.server (Scenario.always 0.5) in
  ∃ asset w',
    SimulationsService._generateAsset false w = (Normal (Some asset), w')
    ∧ ∃ ref original,
        ref ∈ Settings.assetsWithControls
        ∧ Settings.assets !! ref = Some original
        ∧ asset_identity asset = asset_identity original.
Proof.
  intros w.
  assert (Hrun : ∃ asset w',
    SimulationsService._generateAsset false w = (Normal (Some asset), w')).
  { eexists _, _. vm_compute. reflexivity. }
  destruct Hrun as (asset & w' & Hrun).
  exists asset, w'. split; [exact Hrun|].
  exact (generateAsset_has_controls w w' asset Hrun).
Defined.

(** *** Security areas are drawn without replacement *)

Lemma index_splice_start (x : float) (i len : nat) :
  JS.index x = Some i → i < len → JS.splice_start len x = i.
Proof.
  unfold JS.index, JS.splice_start. destruct (Prim2SF x) as [s| | |s m e].
  - by intros [= <-].
  - done.
  - done.
  - destruct s; [done|]. cbn [cond_Zopp].
    assert (Hclamp : ∀ t : Z, (0 ≤ t)%Z → Z.to_nat t < len →
      (if (t <? 0)%Z then Z.to_nat (Z.max (Z.of_nat len + t) 0)
       else Z.to_nat (Z.min t (Z.of_nat len))) = Z.to_nat t).
    { intros t Ht Hlt. destruct (Z.ltb_spec t 0); lia. }
    destruct (0 <=? e)%Z eqn:He.
    + intros [= <-] Hlt. apply Hclamp; [|done]. apply Z.leb_le in He. nia.
    + destruct ((Z.pos m mod 2 ^ (- e)) =? 0)%Z; [|done].
      intros [= <-] Hlt. apply Hclamp; [|done].
      apply Z.div_pos; [lia|]. apply Z.pow_pos_nonneg; [lia|]. apply Z.leb_gt in He. lia.
Qed.

Lemma insert_sorted_Permutation {A} (cmp : A → A → float) (x : A) (l : list A) :
  JS.insert_sorted cmp x l ≡ₚ x :: l.
Proof.
  induction l as [|y l IH]; simpl; [done|].
  case_match; [done|]. by rewrite IH, Permutation_swap.
Qed.

Lemma sort_Permutation {A} (cmp : A → A → float) (l : list (option A)) :
  omap id (JS.sort cmp l) ≡ₚ omap id l.
Proof.
  unfold JS.sort.
  assert (Hsorted : ∀ xs acc : list A,
    foldl (λ acc x, JS.insert_sorted cmp x acc) acc xs ≡ₚ acc ++ xs).
  { induction xs as [|x xs IH]; intros acc; simpl; [by rewrite app_nil_r|].
    rewrite IH, insert_sorted_Permutation. apply Permutation_middle. }
  assert (Hsome : ∀ xs : list A, omap id (Some <$> xs) = xs).
  { induction xs as [|x xs IH]; [done|]. cbn. by rewrite IH. }
  assert (Hnone : omap id (filter (λ x, x = None) l) = []).
  { induction l as [|[a|] l' IH]; [done| |].
    - by rewrite filter_cons_False.
    - by rewrite filter_cons_True. }
  rewrite omap_app, Hsome, Hnone, app_nil_r. apply Hsorted.
Qed.

Lemma pick_securityAreas_submseteq (n : nat) (all : list SecurityArea.t)
    (picked result : list (option SecurityArea.t)) (w w' : world) :
  SimulationsService.pick_securityAreas n all picked w = (Normal result, w') →
  omap id result ⊆+ omap id picked ++ all.
Proof.
  revert all picked w. induction n as [|n IH]; intros all picked w; simpl.
  - intros [= <- <-]. by apply submseteq_inserts_r.
  - rewrite bind_run. unfold Math_random at 1. cbv iota beta.
    set (randIdx := JS.Math_floor _). intros Hpicked%IH.
    etrans; [exact Hpicked|]. rewrite omap_app, <-(assoc_L (++)).
    apply submseteq_app; [done|].
    unfold JS.get, JS.splice1. cbn.
    destruct (JS.index randIdx) as [i|] eqn:Hi; [destruct (all !! i) as [a|] eqn:Ha|].
    + rewrite (index_splice_start _ _ _ Hi) by by eapply lookup_lt_Some.
      cbn. by rewrite <-delete_Permutation.
    + cbn. apply sublist_submseteq, sublist_delete.
    + cbn. apply sublist_submseteq, sublist_delete.
Qed.

(** X15. The security areas of an event are drawn without replacement from
    the areas of the game's source: the areas that [_generateSecurityAreas]
    returns (the slots that are not [undefined]) form a sub-multiset of the
    stored areas with that source, so none belongs to another source and none
    is returned more often than it is stored. *)
Theorem generateSecurityAreas_without_replacement (w w' : world) (source : string)
    (securityAreas : list (option SecurityArea.t)) :
  SimulationsService._generateSecurityAreas source w = (Normal securityAreas, w') →
  omap id securityAreas
    ⊆+ filter (λ a, SecurityArea.source a = source) (SecurityAreas w).
Proof.
  unfold SimulationsService._generateSecurityAreas, SecurityAreasService.getAllBySource,
    SecurityAreasService._getAllBySource.
  rewrite bind_run. cbn [read]. rewrite bind_run. unfold Math_random at 1. cbv iota beta.
  case_match; [|done]. rewrite bind_run.
  match goal with |- context [SimulationsService.pick_securityAreas ?n ?all ?p ?w1] =>
    destruct (SimulationsService.pick_securityAreas n all p w1) as [[picked|e|] w2] eqn:Hrun
  end; [|done..].
  intros [= <- <-]. rewrite sort_Permutation.
  exact (pick_securityAreas_submseteq _ _ _ _ _ _ Hrun).
Qed.

Lemma generateSecurityAreas_without_replacement_witness :
  let w := Scenario.server (Scenario.always 0.5) in
  ∃ securityAreas w',
    SimulationsService._generateSecurityAreas "original" w = (Normal securityAreas, w')
    ∧ SecurityArea.id <$> omap id securityAreas = [1; 2]%N
    ∧ omap id securityAreas ⊆+ Scenario.securityAreas.
Proof.
  intros w.
  assert (Hrun : ∃ securityAreas w',
    SimulationsService._generateSecurityAreas "original" w = (Normal securityAreas, w')
    ∧ SecurityArea.id <$> omap id securityAreas = [1; 2]%N).
  { eexists _, _. split; [vm_compute; reflexivity | reflexivity]. }
  destruct Hrun as (securityAreas & w' & Hrun & Hids).
  exists securityAreas, w'. split; [exact Hrun|]. split; [exact Hids|].
  exact (generateSecurityAreas_without_replacement w w' "original" securityAreas Hrun).
Defined.

(** *** The events of a turn *)

#[local] Instance unchanged_preorder {B} (f : world → B) :
  PreOrder (λ w w', f w' = f w).
Proof. split; [done|]. intros w1 w2 w3 H1 H2. by rewrite H2. Qed.

(** What comes before an event is stored leaves alone every part of the
    world that the random source and the catalogs do not hold. *)
Lemma generation_keeps {B} (f : world → B) :
  (∀ n w, f (set_random_calls n w) = f w) →
  (∀ g w, f (set_threatActors g w) = f w) →
  (∀ g w, f (set_assets g w) = f w) →
  (∀ gameProgress, keeps f (SimulationsService._generateThreatActor gameProgress))
  ∧ (∀ allowed, keeps f (SimulationsService._generateAsset allowed))
  ∧ (∀ source, keeps f (SimulationsService._generateSecurityAreas source))
  ∧ (∀ min max modifier, keeps f (SimulationsService._generateCost min max modifier))
  ∧ (∀ securityAreas, keeps f (SimulationsService.map_id securityAreas)).
Proof.
  intros Hrandom Hactors Hassets.
  pose proof (unchanged_preorder f) as Hpre.
  repeat split; intros.
  - apply (evolves_generateThreatActor (λ w w', f w' = f w)); by intros.
  - apply (evolves_generateAsset (λ w w', f w' = f w)); by intros.
  - apply (evolves_generateSecurityAreas (λ w w', f w' = f w)); by intros.
  - apply (evolves_generateCost (λ w w', f w' = f w)); by intros.
  - by apply (evolves_map_id (λ w w', f w' = f w)).
Qed.

Lemma create_run (w : world) (game : ObjectId) (turn cost : float)
    (threatActor asset : string) (securityAreas : list ObjectId) :
  let event :=
    Event.mk (fresh (dom (Events w))) game turn cost asset threatActor securityAreas in
  EventsService.create game turn cost threatActor asset securityAreas w
  = (Normal event, set_Events <[Event.id event := event]> w).
Proof.
  unfold EventsService.create, EventsService._basicDetails.
  rewrite !bind_run. cbn [read write]. rewrite bind_run. cbn [write]. by rewrite ret_run.
Qed.

Lemma defined_returns {A} (x : option A) (a : A) (w w' : world) :
  defined x w = (Normal a, w') → x = Some a ∧ w' = w.
Proof. destruct x; [by intros [= <- <-] | done]. Qed.

(** The events that the loop of [_simulateEventsForTurn] adds. *)
Lemma generate_events_spec (n : nat) (gameId : ObjectId) (game : Game.t)
    (eventsForTurn events : list Event.t) (w w' : world) :
  SimulationsService.generate_events n gameId game eventsForTurn w = (Normal events, w') →
  ∃ new,
    events = eventsForTurn ++ new
    ∧ NoDup (Event.id <$> new)
    ∧ Forall (λ event,
                Event.game event = gameId
                ∧ Event.turn event = Game.currentTurn game
                ∧ Events w !! Event.id event = None
                ∧ Events w' !! Event.id event = Some event) new
    ∧ dom (Events w') = dom (Events w) ∪ list_to_set (Event.id <$> new)
    ∧ Events w ⊆ Events w'.
Proof.
  destruct (generation_keeps Events) as (KA & KB & KC & KD & KE); [done..|].
  revert eventsForTurn w. induction n as [|n IH]; intros eventsForTurn w; simpl.
  - intros Hrun. injection Hrun as <- <-.
    exists []. rewrite app_nil_r. cbn [fmap list_fmap list_to_set].
    split; [done|]. split; [apply NoDup_nil_2|]. split; [apply Forall_nil_2|].
    split; [by rewrite (right_id_L ∅ (∪)) | done].
  - intros Hrun.
    apply bind_returns in Hrun as (threatActor & w1 & H1 & Hrun).
    apply bind_returns in Hrun as (asset & w2 & H2 & Hrun).
    apply bind_returns in Hrun as (areas & w3 & H3 & Hrun).
    apply bind_returns in Hrun as (threatActor' & w4 & [_ ->]%defined_returns & Hrun).
    apply bind_returns in Hrun as (cost & w5 & H5 & Hrun).
    apply bind_returns in Hrun as (asset' & w6 & [_ ->]%defined_returns & Hrun).
    apply bind_returns in Hrun as (ids & w7 & H7 & Hrun).
    apply bind_returns in Hrun as (event & w8 & H8 & Hrun).
    assert (Hsame : Events w7 = Events w).
    { pose proof (KE areas w5) as E7. rewrite H7 in E7.
      pose proof (KD (Game.minCostPerEvent game) (Game.maxCostPerEvent game)
                    (ThreatActor.costModifier threatActor') w3) as E5. rewrite H5 in E5.
      pose proof (KC (Game.source game) w2) as E3. rewrite H3 in E3.
      pose proof (KB (Game.allowUnavoidableIncidents game) w1) as E2. rewrite H2 in E2.
      pose proof (KA (Game.currentTurn game / Game.maxTurns game)%float w) as E1.
      rewrite H1 in E1. cbn [snd] in *. congruence. }
    rewrite create_run in H8. cbv zeta in H8. cbn [Event.id] in H8. rewrite Hsame in H8.
    assert (Hfresh : Events w !! fresh (dom (Events w)) = None)
      by apply not_elem_of_dom, is_fresh.
    revert H8 Hfresh. generalize (fresh (dom (Events w))). intros id H8 Hfresh.
    injection H8 as <- <-.
    set (event := Event.mk id _ _ _ _ _ _) in *.
    apply IH in Hrun as (new & -> & Hdistinct & Hnew & Hdom & Hsub).
    unfold set_Events in Hnew, Hdom, Hsub; cbn [Events] in Hnew, Hdom, Hsub.
    rewrite Hsame in Hnew, Hdom, Hsub.
    exists (event :: new). rewrite <-(assoc_L (++)). split; [done|].
    assert (Hstored : Events w' !! id = Some event).
    { eapply lookup_weaken; [|exact Hsub]. apply lookup_insert_eq. }
    split; [|split; [|split]].
    + cbn [fmap list_fmap]. apply NoDup_cons. split; [|done].
      intros (other & Hid & Hother)%list_elem_of_fmap.
      rewrite Forall_forall in Hnew. destruct (Hnew other Hother) as (_ & _ & Hnone & _).
      cbn [Event.id event] in Hid. by rewrite <-Hid, lookup_insert_eq in Hnone.
    + apply Forall_cons. split; [done|].
      eapply Forall_impl; [exact Hnew|]. intros other (? & ? & Hnone & ?).
      repeat split; [done..| |done].
      apply lookup_insert_None in Hnone. by destruct Hnone.
    + rewrite Hdom, dom_insert_L. cbn [fmap list_fmap list_to_set].
      by rewrite (comm_L (∪) {[id]}), <-(assoc_L (∪)).
    + etrans; [|exact Hsub]. by apply insert_subseteq.
Qed.

Lemma simulateEventsForTurn_spec (w w' : world) (gameId : ObjectId)
    (events : list Event.t) :
  SimulationsService._simulateEventsForTurn gameId w = (Normal events, w') →
  ∃ game,
    Games w !! gameId = Some game
    ∧ NoDup (Event.id <$> events)
    ∧ Forall (λ event,
                Event.game event = gameId
                ∧ Event.turn event = Game.currentTurn game
                ∧ Events w !! Event.id event = None
                ∧ Events w' !! Event.id event = Some event) events
    ∧ dom (Events w') = dom (Events w) ∪ list_to_set (Event.id <$> events)
    ∧ Events w ⊆ Events w'
    ∧ Organisations w' = Organisations w
    ∧ Games w' = Games w.
Proof.
  intros Hrun.
  pose proof (keeps_Games_simulateEventsForTurn gameId w) as Hgames.
  assert (Horgs : Organisations (SimulationsService._simulateEventsForTurn gameId w).2
                  = Organisations w).
  { apply (evolves_simulateEventsForTurn (λ w w', Organisations w' = Organisations w));
      by intros. }
  rewrite Hrun in Hgames, Horgs. cbn [snd] in Hgames, Horgs.
  revert Hrun. unfold SimulationsService._simulateEventsForTurn, GameDocuments.get, _getById.
  rewrite !bind_run. cbn [read].
  destruct (Games w !! gameId) as [game|]; [|done].
  rewrite !ret_run, bind_run. unfold Math_random at 1. cbv iota beta.
  case_match; [|done].
  intros (new & -> & Hdistinct & Hnew & Hdom & Hsub)%generate_events_spec.
  exists game. by cbn in *.
Qed.

(** X16. The events that [_simulateEventsForTurn] returns are those of the
    game and of its current turn, each under an identifier of its own that no
    event had before; they are stored as returned, and they are the only
    events added to the log. No organisation and no game is touched. *)
Theorem simulateEventsForTurn_stores_its_events (w w' : world) (gameId : ObjectId)
    (events : list Event.t) :
  SimulationsService._simulateEventsForTurn gameId w = (Normal events, w') →
  ∃ game,
    Games w !! gameId = Some game
    ∧ NoDup (Event.id <$> events)
    ∧ Forall (λ event,
                Event.game event = gameId
                ∧ Event.turn event = Game.currentTurn game
                ∧ Events w !! Event.id event = None
                ∧ Events w' !! Event.id event = Some event) events
    ∧ dom (Events w') = dom (Events w) ∪ list_to_set (Event.id <$> events)
    ∧ Events w ⊆ Events w'
    ∧ Organisations w' = Organisations w
    ∧ Games w' = Games w.
Proof. apply simulateEventsForTurn_spec. Qed.

Lemma simulateEventsForTurn_stores_its_events_witness :
  let w := Scenario.solo_world 1 in
  ∃ events w',
    SimulationsService._simulateEventsForTurn 1 w = (Normal events, w')
    ∧ Event.id <$> events = [101; 102]%N
    ∧ dom (Events w') = dom (Events w) ∪ list_to_set (Event.id <$> events).
Proof.
  intros w.
  assert (Hrun : ∃ events w',
    SimulationsService._simulateEventsForTurn 1 w = (Normal events, w')
    ∧ Event.id <$> events = [101; 102]%N).
  { eexists _, _. split; [vm_compute; reflexivity | reflexivity]. }
  destruct Hrun as (events & w' & Hrun & Hids).
  exists events, w'. split; [exact Hrun|]. split; [exact Hids|].
  destruct (simulateEventsForTurn_stores_its_events w w' 1 events Hrun)
    as (game & _ & _ & _ & Hdom & _).
  exact Hdom.
Defined.

(** *** The accounts of a turn *)






Lemma set_Organisations_insert_insert (w : world) (id : ObjectId)
    (organisation organisation' : Organisation.t) :
  set_Organisations <[id := organisation']> (set_Organisations <[id := organisation]> w)
  = set_Organisations <[id := organisation']> w.
Proof. destruct w. unfold set_Organisations. cbn. by rewrite insert_insert_eq. Qed.






(** *** Buying and removing controls *)

Lemma filter_all {A} (P : A → Prop) `{!∀ x, Decision (P x)} (l : list A) :
  Forall P l → filter P l = l.
Proof.
  induction 1 as [|x l Hx _ IH]; [done|]. by rewrite filter_cons_True, IH.
Qed.

Lemma addControl_run (Controls : gmap ObjectId Control.t) (w : world)
    (organisationId newControlId : ObjectId) :
  OrganisationControls.addControl Controls organisationId newControlId w
  = match Organisations w !! organisationId, Controls !! newControlId with
    | Some organisation, Some control =>
        let organisation' :=
          Organisation.mk (Organisation.owner organisation) (Organisation.name organisation)
            (Organisation.balance organisation - Control.cost control)%float
            (Organisation.controls organisation
               ++ [OrganisationControls.implemented newControlId control])
            (Organisation.members organisation) (Organisation.pastBalances organisation)
            (Organisation.events organisation) in
        (Normal (OrganisationsService._basicDetails organisation'),
         set_Organisations <[organisationId := organisation']> w)
    | _, _ => (Throw (Message "No document found matching provided ID."), w)
    end.
Proof.
  unfold OrganisationControls.addControl, ControlsService.get, _getById.
  rewrite !bind_run. cbn [read].
  destruct (Organisations w !! organisationId) as [organisation|]; [|done].
  rewrite ret_run, bind_run. by destruct (Controls !! newControlId).
Qed.

Lemma removeControl_run (Controls : gmap ObjectId Control.t) (w : world)
    (organisationId controlId : ObjectId) :
  OrganisationControls.removeControl Controls organisationId controlId w
  = match Organisations w !! organisationId, Controls !! controlId with
    | Some organisation, Some control =>
        if existsb (λ control, bool_decide (ImplementedControl.id control = controlId))
             (Organisation.controls organisation)
        then
          (Normal true,
           set_Organisations
             <[organisationId :=
                 Organisation.set_controls
                   (filter (λ control, ImplementedControl.id control ≠ controlId)
                      (Organisation.controls organisation)) organisation]> w)
        else (Throw (Message "Organisation has not implemented control."), w)
    | _, _ => (Throw (Message "No document found matching provided ID."), w)
    end.
Proof.
  unfold OrganisationControls.removeControl, ControlsService.get, _getById.
  rewrite !bind_run. cbn [read].
  destruct (Organisations w !! organisationId) as [organisation|]; [|done].
  rewrite ret_run, bind_run. destruct (Controls !! controlId); [|done].
  rewrite ret_run. by case_match.
Qed.

Lemma implemented_spec (controlId : ObjectId) (controls : list ImplementedControl.t) :
  existsb (λ control, bool_decide (ImplementedControl.id control = controlId)) controls = true
  ↔ controlId ∈ ImplementedControl.id <$> controls.
Proof.
  rewrite existsb_exists, list_elem_of_fmap. split.
  - intros (control & Hin%list_elem_of_In & Hid%bool_decide_eq_true). by exists control.
  - intros (control & Hid & Hin). exists control.
    split; [by apply list_elem_of_In | by apply bool_decide_eq_true].
Qed.

(** X18. Removing a control that the organisation has not implemented is
    refused with "Organisation has not implemented control." and nothing is
    written. *)
Theorem removeControl_not_implemented (Controls : gmap ObjectId Control.t) (w : world)
    (organisationId controlId : ObjectId) (organisation : Organisation.t)
    (control : Control.t) :
  Organisations w !! organisationId = Some organisation →
  Controls !! controlId = Some control →
  controlId ∉ (ImplementedControl.id <$> Organisation.controls organisation) →
  OrganisationControls.removeControl Controls organisationId controlId w
  = (Throw (Message "Organisation has not implemented control."), w).
Proof.
  intros Horg Hcontrol Hnot. rewrite removeControl_run, Horg, Hcontrol.
  destruct (existsb _ _) eqn:Hfound; [|done]. by apply implemented_spec in Hfound.
Qed.

(** X19. Removing a control removes every copy of it that the organisation
    has implemented, keeps the other controls in their order, and refunds
    nothing: the balance, the history and the past balances are as before. *)
Theorem removeControl_removes_every_copy (Controls : gmap ObjectId Control.t) (w : world)
    (organisationId controlId : ObjectId) (organisation : Organisation.t)
    (control : Control.t) :
  Organisations w !! organisationId = Some organisation →
  Controls !! controlId = Some control →
  controlId ∈ (ImplementedControl.id <$> Organisation.controls organisation) →
  ∃ w' organisation',
    OrganisationControls.removeControl Controls organisationId controlId w = (Normal true, w')
    ∧ Organisations w' !! organisationId = Some organisation'
    ∧ (controlId ∉ ImplementedControl.id <$> Organisation.controls organisation')
    ∧ Organisation.controls organisation'
      = filter (λ c, ImplementedControl.id c ≠ controlId) (Organisation.controls organisation)
    ∧ Organisation.balance organisation' = Organisation.balance organisation
    ∧ Organisation.events organisation' = Organisation.events organisation
    ∧ Organisation.pastBalances organisation' = Organisation.pastBalances organisation.
Proof.
  intros Horg Hcontrol Himplemented. rewrite removeControl_run, Horg, Hcontrol.
  apply implemented_spec in Himplemented as ->.
  eexists _, _. split; [done|]. split; [apply lookup_insert_eq|].
  split; [|done]. cbn.
  intros (c & Hid & [Hne _]%list_elem_of_filter)%list_elem_of_fmap. done.
Qed.

(** X20. Buying a control and removing it again does not give the money back.
    For an organisation that had not implemented the control, [addControl]
    followed by [removeControl] leaves the organisation as it was, controls
    included, except that its balance is lower by the cost of the control;
    [addControl] itself never looks at the balance. *)
Theorem addControl_then_removeControl (Controls : gmap ObjectId Control.t) (w : world)
    (organisationId controlId : ObjectId) (organisation : Organisation.t)
    (control : Control.t) :
  Organisations w !! organisationId = Some organisation →
  Controls !! controlId = Some control →
  controlId ∉ (ImplementedControl.id <$> Organisation.controls organisation) →
  let w1 := (OrganisationControls.addControl Controls organisationId controlId w).2 in
  OrganisationControls.removeControl Controls organisationId controlId w1
  = (Normal true,
     set_Organisations
       <[organisationId :=
           Organisation.set_balance
             (Organisation.balance organisation - Control.cost control)%float
             organisation]> w).
Proof.
  intros Horg Hcontrol Hnot w1. subst w1.
  rewrite addControl_run, Horg, Hcontrol. cbn [snd].
  rewrite removeControl_run, Hcontrol. unfold set_Organisations at 1; cbn [Organisations].
  rewrite lookup_insert_eq. cbn [Organisation.controls].
  rewrite existsb_app. cbn [existsb OrganisationControls.implemented ImplementedControl.id].
  rewrite bool_decide_eq_true_2, orb_true_r by done.
  rewrite set_Organisations_insert_insert. do 2 f_equal.
  unfold Organisation.set_controls, Organisation.set_balance. cbn.
  rewrite filter_app, filter_cons_False, filter_nil, app_nil_r by (cbn; by intros []).
  rewrite filter_all; [done|].
  apply Forall_forall. intros c Hin Hid. apply Hnot.
  apply list_elem_of_fmap. by exists c.
Qed.

Lemma removeControl_not_implemented_witness :
  Organisations Scenario.office !! 10%N = Some Scenario.acme
  ∧ Shop.controls !! 61%N = Some Shop.training
  ∧ OrganisationControls.removeControl Shop.controls 10 61 Scenario.office
    = (Throw (Message "Organisation has not implemented control."), Scenario.office).
Proof.
  split; [reflexivity|]. split; [reflexivity|].
  apply (removeControl_not_implemented Shop.controls _ _ _ Scenario.acme Shop.training);
    [reflexivity | reflexivity |].
  cbn. by rewrite list_elem_of_singleton.
Defined.

Lemma removeControl_removes_every_copy_witness :
  let w := (OrganisationControls.addControl Shop.controls 10 60
              (OrganisationControls.addControl Shop.controls 10 60 Scenario.office).2).2 in
  ∃ organisation w' organisation',
    Organisations w !! 10%N = Some organisation
    ∧ ImplementedControl.id <$> Organisation.controls organisation = [50; 60; 60]%N
    ∧ OrganisationControls.removeControl Shop.controls 10 60 w = (Normal true, w')
    ∧ Organisations w' !! 10%N = Some organisation'
    ∧ (60%N ∉ ImplementedControl.id <$> Organisation.controls organisation')
    ∧ Organisation.balance organisation' = 0%float.
Proof.
  intros w.
  assert (Horg : ∃ organisation,
    Organisations w !! 10%N = Some organisation
    ∧ ImplementedControl.id <$> Organisation.controls organisation = [50; 60; 60]%N
    ∧ Organisation.balance organisation = 0%float).
  { eexists. split; [vm_compute; reflexivity|]. split; reflexivity. }
  destruct Horg as (organisation & Horg & Hids & Hbalance).
  destruct (removeControl_removes_every_copy Shop.controls w 10 60 organisation
              Shop.firewall Horg eq_refl)
    as (w' & organisation' & Hrun & Hstored & Hgone & _ & Hsame & _).
  { rewrite Hids. apply elem_of_cons. right. by left. }
  exists organisation, w', organisation'.
  split; [exact Horg|]. split; [exact Hids|]. split; [exact Hrun|]. split; [exact Hstored|].
  split; [exact Hgone|]. by rewrite Hsame.
Defined.

Lemma addControl_then_removeControl_witness :
  Organisations Scenario.office !! 10%N = Some Scenario.acme
  ∧ Shop.controls !! 61%N = Some Shop.training
  ∧ ∃ w', OrganisationControls.removeControl Shop.controls 10 61
            (OrganisationControls.addControl Shop.controls 10 61 Scenario.office).2
          = (Normal true, w')
        ∧ Organisation.balance <$> Organisations w' !! 10%N = Some (-500)%float
        ∧ Organisation.controls <$> Organisations w' !! 10%N = Some [Scenario.firewall].
Proof.
  split; [reflexivity|]. split; [reflexivity|]. eexists. split.
  - apply (addControl_then_removeControl Shop.controls _ _ _ Scenario.acme Shop.training);
      [reflexivity | reflexivity |].
    cbn. by rewrite list_elem_of_singleton.
  - split; reflexivity.
Defined.

(** *** The assets with controls *)

Lemma hasControls_spec (Controls : gmap ObjectId Control.t) (slug source : string) :
  ControlsService.hasControls Controls slug source = true
  ↔ ∃ id control,
      Controls !! id = Some control
      ∧ Control.asset control = Some slug ∧ Control.source control = source.
Proof.
  unfold ControlsService.hasControls. by rewrite bool_decide_eq_true, map_Exists_lookup.
Qed.

Lemma getSettings_run (Controls : gmap ObjectId Control.t)
    (threatActors : list ThreatActor.t) (assets : list Asset.t) (w : world) :
  getSettings Controls (Some threatActors) (Some assets) w
  = (Normal (),
     World (Games w) (Organisations w) (Events w) (SecurityAreas w) threatActors assets
       (ControlsService.filterAssetsWithControls Controls assets "original")
       (random_source w) (random_calls w)).
Proof. reflexivity. Qed.

(** X21. Incidents stay avoidable. Once [getSettings] has loaded the
    settings, and after whatever simulate-turn requests have been served
    since, an asset drawn with unavoidable incidents switched off is the
    asset of some control on offer whose source is "original" (whatever the
    source of the game is). *)
Theorem getSettings_then_generateAsset (Controls : gmap ObjectId Control.t)
    (threatActors : list ThreatActor.t) (assets : list Asset.t) (w w1 w2 : world)
    (asset : Asset.t) :
  turn_frame (getSettings Controls (Some threatActors) (Some assets) w).2 w1 →
  SimulationsService._generateAsset false w1 = (Normal (Some asset), w2) →
  ∃ id control,
    Controls !! id = Some control
    ∧ Control.asset control = Some (Asset.slug asset)
    ∧ Control.source control = "original".
Proof.
  rewrite getSettings_run. cbn [snd].
  intros (_ & _ & _ & Hrefs & _ & Hassets & _) Hrun.
  cbn [_assets _assetsWithControls] in Hrefs, Hassets.
  revert Hrun. unfold SimulationsService._generateAsset. rewrite bind_run. cbn [read].
  intros (ref & original & Hin & Horiginal & Hsame & _)%(generate_returns _ _ _ _ asset_identity);
    [|done..].
  rewrite Hrefs in Hin. apply filter_refs_spec in Hin as (listed & _ & Hlisted & Hhas).
  rewrite Nat.sub_0_r in Hlisted.
  assert (Hslug : Asset.slug asset = Asset.slug listed).
  { assert (Hid : (asset_identity <$> _assets w1) !! ref = Some (asset_identity original))
      by by rewrite list_lookup_fmap, Horiginal.
    rewrite Hassets, list_lookup_fmap, Hlisted in Hid.
    cbn [fmap option_fmap option_map] in Hid. apply (inj Some) in Hid.
    unfold asset_identity in Hid, Hsame. congruence. }
  rewrite Hslug. by apply hasControls_spec.
Qed.

Lemma getSettings_then_generateAsset_witness :
  let w := (getSettings Shop.controls (Some Settings.threatActors) (Some Settings.assets)
              (Scenario.server (Scenario.always 0.5))).2 in
  ∃ asset w2,
    SimulationsService._generateAsset false w = (Normal (Some asset), w2)
    ∧ Asset.slug asset = "users"
    ∧ ∃ id control,
        Shop.controls !! id = Some control
        ∧ Control.asset control = Some (Asset.slug asset)
        ∧ Control.source control = "original".
Proof.
  intros w.
  assert (Hrun : ∃ asset w2,
    SimulationsService._generateAsset false w = (Normal (Some asset), w2)
    ∧ Asset.slug asset = "users").
  { eexists _, _. split; [vm_compute; reflexivity | reflexivity]. }
  destruct Hrun as (asset & w2 & Hrun & Hslug).
  exists asset, w2. split; [exact Hrun|]. split; [exact Hslug|].
  apply (getSettings_then_generateAsset Shop.controls Settings.threatActors Settings.assets
           (Scenario.server (Scenario.always 0.5)) w w2 asset); [|exact Hrun].
  reflexivity.
Defined.
